(** * l2_saas_weather: the dataset builder and the weather proxy service

    A shallow embedding of [isw_data_parser/dataset.py] and
    [weather_app/app.py], followed by the properties of the two programs.

    Text is modelled as [string], read as the UTF-8 bytes of a Python [str]:
    every character the programs look at (comma, double quote, dot, carriage
    return, line feed) is ASCII, and no byte of a multi-byte UTF-8 sequence
    is.  A file name that is not UTF-8 reaches the program as a [str] with
    lone surrogates ([surrogateescape]); it is modelled by the bytes of the
    name, see [Utf8]. *)

From Stdlib Require Import Floats ZArith Lia Bool Ascii DecimalString.
From stdpp Require Import strings list.

Local Open Scope Z_scope.
Local Set Warnings "-register-all".
#[local] Arguments String.append !_ _ : simpl nomatch.

(** ** Python values *)

Module Py.

(** What [json.loads] and [request.get_json()] can return: [None], [bool],
    [int], [float], [str], [list] and [dict] with [str] keys.  A [dict] keeps
    its insertion order, so it is an association list whose keys are kept
    unique by [dict_set]. *)
Inductive value :=
| PyNone
| PyBool (b : bool)
| PyInt (n : Z)
| PyFloat (x : float)
| PyStr (s : string)
| PyList (l : list value)
| PyDict (d : list (string * value)).

Abbreviation dict := (list (string * value)).

(** [bool(v)]: Python's truth value. *)
Definition truthy (v : value) : bool :=
  match v with
  | PyNone => false
  | PyBool b => b
  | PyInt n => negb (n =? 0)
  | PyFloat x => negb (PrimFloat.eqb x 0%float)
  | PyStr s => negb (String.eqb s "")
  | PyList l => match l with [] => false | _ => true end
  | PyDict d => match d with [] => false | _ => true end
  end.

(** [v is None] *)
Definition is_none (v : value) : bool :=
  match v with PyNone => true | _ => false end.

(** [k in d] and [d[k]] *)
Fixpoint dict_lookup (d : dict) (k : string) : option value :=
  match d with
  | [] => None
  | (k', v) :: d' => if String.eqb k' k then Some v else dict_lookup d' k
  end.

(** [d.get(k)], with its default [None] *)
Definition dict_get (d : dict) (k : string) : value :=
  match dict_lookup d k with Some v => v | None => PyNone end.

(** [d[k] = v]: an existing key keeps its position, a new one goes last. *)
Fixpoint dict_set (d : dict) (k : string) (v : value) : dict :=
  match d with
  | [] => [(k, v)]
  | (k', v') :: d' =>
      if String.eqb k' k then (k, v) :: d' else (k', v') :: dict_set d' k v
  end.

(** [d.update(other)] *)
Definition dict_update (d other : dict) : dict :=
  fold_left (fun acc kv => dict_set acc (fst kv) (snd kv)) other d.

Definition dict_keys (d : dict) : list string := map fst d.

(** The value of an environment variable read with [os.getenv]: a [str], or
    [None] when the variable is unset. *)
Definition of_getenv (c : option string) : value :=
  match c with Some s => PyStr s | None => PyNone end.

(** [v == c] where [c] comes from [os.getenv]: a [str] equals only the same
    [str], and [None] equals only [None]. *)
Definition eq_getenv (v : value) (c : option string) : bool :=
  match v, c with
  | PyStr s, Some s' => String.eqb s s'
  | PyNone, None => true
  | _, _ => false
  end.

End Py.

(** ** [datetime]: the part of the standard module the service uses *)

Module DateTime.

(** A naive [datetime.datetime], field by field. *)
Record datetime := {
  year : Z; month : Z; day : Z;
  hour : Z; minute : Z; second : Z; microsecond : Z
}.

(** The ranges the [datetime] constructor enforces. *)
Definition valid (t : datetime) : Prop :=
  1 <= year t <= 9999 /\ 1 <= month t <= 12 /\ 1 <= day t <= 31 /\
  0 <= hour t <= 23 /\ 0 <= minute t <= 59 /\ 0 <= second t <= 59 /\
  0 <= microsecond t <= 999999.

(** Naive datetimes compare as the tuples of their fields. *)
Definition fields (t : datetime) : list Z :=
  [year t; month t; day t; hour t; minute t; second t; microsecond t].

Fixpoint lex_leb (a b : list Z) : bool :=
  match a, b with
  | [], _ => true
  | _ :: _, [] => false
  | x :: a', y :: b' => (x <? y) || ((x =? y) && lex_leb a' b')
  end.

Definition leb (a b : datetime) : bool := lex_leb (fields a) (fields b).

Definition digit (n : Z) : ascii := ascii_of_nat (48 + Z.to_nat (n mod 10)).

(** ["%0wd" % n] for [0 <= n < 10^w]. *)
Fixpoint zero_padded (w : nat) (n : Z) : string :=
  match w with
  | O => ""
  | S w' => zero_padded w' (n / 10) +:+ String (digit n) ""
  end.

(** ["%d" % n] *)
Definition decimal (n : Z) : string := NilZero.string_of_int (Z.to_int n).

(** [_format_time(hh, mm, ss, us, 'auto')] *)
Definition format_time (hh mm ss us : Z) : string :=
  zero_padded 2 hh +:+ ":" +:+ zero_padded 2 mm +:+ ":" +:+ zero_padded 2 ss
  +:+ (if us =? 0 then "" else "." +:+ zero_padded 6 us).

(** [t.isoformat()] *)
Definition isoformat (t : datetime) : string :=
  zero_padded 4 (year t) +:+ "-" +:+ zero_padded 2 (month t) +:+ "-"
  +:+ zero_padded 2 (day t) +:+ "T"
  +:+ format_time (hour t) (minute t) (second t) (microsecond t).

Definition is_leap (y : Z) : bool :=
  (y mod 4 =? 0) && (negb (y mod 100 =? 0) || (y mod 400 =? 0)).

Definition days_before_year (y : Z) : Z :=
  let y := y - 1 in y * 365 + y / 4 - y / 100 + y / 400.

Definition DAYS_BEFORE_MONTH : list Z :=
  [-1; 0; 31; 59; 90; 120; 151; 181; 212; 243; 273; 304; 334].

Definition days_before_month (y m : Z) : Z :=
  nth (Z.to_nat m) DAYS_BEFORE_MONTH 0
  + (if (2 <? m) && is_leap y then 1 else 0).

Definition toordinal (t : datetime) : Z :=
  days_before_year (year t) + days_before_month (year t) (month t) + day t.

(** A normalised [datetime.timedelta]. *)
Record timedelta := { days : Z; seconds : Z; microseconds : Z }.

(** [timedelta(days, seconds, microseconds)] on integers. *)
Definition new_timedelta (d s us : Z) : timedelta :=
  let s := s + us / 1000000 in
  {| days := d + s / 86400; seconds := s mod 86400;
     microseconds := us mod 1000000 |}.

(** [a - b] *)
Definition sub (a b : datetime) : timedelta :=
  let secs t := second t + minute t * 60 + hour t * 3600 in
  new_timedelta (toordinal a - toordinal b) (secs a - secs b)
                (microsecond a - microsecond b).

(** [str(delta)] *)
Definition timedelta_str (x : timedelta) : string :=
  let mm := seconds x / 60 in
  let ss := seconds x mod 60 in
  let hh := mm / 60 in
  let mm := mm mod 60 in
  (if days x =? 0 then ""
   else decimal (days x) +:+ " day"
        +:+ (if Z.abs (days x) =? 1 then "" else "s") +:+ ", ")
  +:+ decimal hh +:+ ":" +:+ zero_padded 2 mm +:+ ":" +:+ zero_padded 2 ss
  +:+ (if microseconds x =? 0 then "" else "." +:+ zero_padded 6 (microseconds x)).

End DateTime.

(** ** [csv]: the excel dialect of the standard module *)

Module Csv.

Definition CR : ascii := "013".
Definition LF : ascii := "010".

(** [csv.excel]: a comma as delimiter, the double quote as quotechar,
    doublequote, no escapechar, lineterminator CR LF, QUOTE_MINIMAL, not
    strict. *)
Definition delimiter : ascii := ",".
Definition quotechar : ascii := "034".
Definition lineterminator : string := String CR (String LF "").

Fixpoint any (p : ascii -> bool) (s : string) : bool :=
  match s with
  | EmptyString => false
  | String c s' => p c || any p s'
  end.

(** *** The writer *)

(** The characters that make [join_append_data] ask for quotes: the
    delimiter, the quote character and the characters of the line
    terminator. *)
Definition needs_quotes (c : ascii) : bool :=
  Ascii.eqb c delimiter || Ascii.eqb c quotechar
  || Ascii.eqb c CR || Ascii.eqb c LF.

(** [join_append_data]: the field copied with every quote doubled. *)
Fixpoint join_append_data (field : string) : string :=
  match field with
  | EmptyString => ""
  | String c rest =>
      if Ascii.eqb c quotechar
      then String quotechar (String quotechar (join_append_data rest))
      else String c (join_append_data rest)
  end.

(** [join_append] under QUOTE_MINIMAL. *)
Definition join_append (field : string) : string :=
  if any needs_quotes field
  then String quotechar (join_append_data field +:+ String quotechar "")
  else field.

Fixpoint join (row : list string) : string :=
  match row with
  | [] => ""
  | [f] => join_append f
  | f :: rest => join_append f +:+ String delimiter (join rest)
  end.

(** [writer.writerow(row)]: a row that is one empty field is written as a
    pair of quotes; every row ends with the line terminator. *)
Definition writerow (row : list string) : string :=
  match row with
  | [EmptyString] => String quotechar (String quotechar lineterminator)
  | _ => join row +:+ lineterminator
  end.

(** [writer.writerows(rows)] *)
Fixpoint writerows (rows : list (list string)) : string :=
  match rows with
  | [] => ""
  | row :: rest => writerow row +:+ writerows rest
  end.

(** *** The reader *)

Inductive ParserState :=
| START_RECORD
| START_FIELD
| IN_FIELD
| IN_QUOTED_FIELD
| QUOTE_IN_QUOTED_FIELD
| EAT_CRNL.

(** The reader object: the automaton's state, the field being collected and
    the fields of the record so far. *)
Record Reader := {
  state : ParserState;
  field : string;
  fields : list string
}.

Definition parse_reset : Reader :=
  {| state := START_RECORD; field := ""; fields := [] |}.

Definition parse_save_field (self : Reader) (next : ParserState) : Reader :=
  {| state := next; field := ""; fields := fields self ++ [field self] |}.

Definition parse_add_char (self : Reader) (c : ascii) (next : ParserState)
  : Reader :=
  {| state := next; field := field self +:+ String c "";
     fields := fields self |}.

Definition goto (self : Reader) (next : ParserState) : Reader :=
  {| state := next; field := field self; fields := fields self |}.

(** What the automaton is fed: a character of the current line, or the
    end-of-line mark the reader adds after each line. *)
Inductive input :=
| Char (c : ascii)
| EOL.

Definition is_newline (c : ascii) : bool := Ascii.eqb c CR || Ascii.eqb c LF.

(** [parse_process_char] for the excel dialect; [None] is [csv.Error]. *)
Definition parse_process_char (self : Reader) (c : input) : option Reader :=
  let expecting_field (self : Reader) : option Reader :=
    match c with
    | EOL => Some (parse_save_field self START_RECORD)
    | Char c =>
        if is_newline c then Some (parse_save_field self EAT_CRNL)
        else if Ascii.eqb c quotechar then Some (goto self IN_QUOTED_FIELD)
        else if Ascii.eqb c delimiter
             then Some (parse_save_field self START_FIELD)
        else Some (parse_add_char self c IN_FIELD)
    end in
  match state self with
  | START_RECORD =>
      match c with
      | EOL => Some self
      | Char c' =>
          if is_newline c' then Some (goto self EAT_CRNL)
          else expecting_field (goto self START_FIELD)
      end
  | START_FIELD => expecting_field self
  | IN_FIELD =>
      match c with
      | EOL => Some (parse_save_field self START_RECORD)
      | Char c =>
          if is_newline c then Some (parse_save_field self EAT_CRNL)
          else if Ascii.eqb c delimiter
               then Some (parse_save_field self START_FIELD)
          else Some (parse_add_char self c IN_FIELD)
      end
  | IN_QUOTED_FIELD =>
      match c with
      | EOL => Some self
      | Char c =>
          if Ascii.eqb c quotechar then Some (goto self QUOTE_IN_QUOTED_FIELD)
          else Some (parse_add_char self c IN_QUOTED_FIELD)
      end
  | QUOTE_IN_QUOTED_FIELD =>
      match c with
      | EOL => Some (parse_save_field self START_RECORD)
      | Char c =>
          if Ascii.eqb c quotechar
          then Some (parse_add_char self c IN_QUOTED_FIELD)
          else if Ascii.eqb c delimiter
               then Some (parse_save_field self START_FIELD)
          else if is_newline c then Some (parse_save_field self EAT_CRNL)
          else Some (parse_add_char self c IN_FIELD)
      end
  | EAT_CRNL =>
      match c with
      | EOL => Some (goto self START_RECORD)
      | Char c => if is_newline c then Some self else None
      end
  end.

(** Where the text stands in its current line.  A file opened with
    [newline=''] is iterated in lines that end after LF, after CR LF, or
    after a CR that no LF follows. *)
Inductive LinePosition :=
| LineStart
| InLine
| AfterCR.

(** The reader over the text of the file: the automaton, the position in
    the line and the rows returned so far. *)
Record Cursor := {
  self : Reader;
  line : LinePosition;
  rows : list (list string)
}.

Definition start : Cursor :=
  {| self := parse_reset; line := LineStart; rows := [] |}.

(** The end of a line: the automaton is fed [EOL]; if that leaves it in
    [START_RECORD] the record is returned and the next one starts from
    [parse_reset], otherwise the record goes on with the next line. *)
Definition end_of_line (k : Cursor) : option Cursor :=
  match parse_process_char (self k) EOL with
  | None => None
  | Some r =>
      match state r with
      | START_RECORD =>
          Some {| self := parse_reset; line := LineStart;
                  rows := rows k ++ [fields r] |}
      | _ => Some {| self := r; line := LineStart; rows := rows k |}
      end
  end.

Definition feed (k : Cursor) (c : ascii) : option Cursor :=
  match
    (match line k with
     | AfterCR => if Ascii.eqb c LF then Some k else end_of_line k
     | _ => Some k
     end)
  with
  | None => None
  | Some k =>
      match parse_process_char (self k) (Char c) with
      | None => None
      | Some r =>
          if Ascii.eqb c LF
          then end_of_line {| self := r; line := InLine; rows := rows k |}
          else Some {| self := r;
                       line := if Ascii.eqb c CR then AfterCR else InLine;
                       rows := rows k |}
      end
  end.

Fixpoint feed_all (k : Cursor) (text : string) : option Cursor :=
  match text with
  | EmptyString => Some k
  | String c rest =>
      match feed k c with
      | None => None
      | Some k' => feed_all k' rest
      end
  end.

(** The end of the input: an unfinished last line is ended, and a record
    still open (a field with characters, or an open quoted field) is
    returned as it stands. *)
Definition end_of_input (k : Cursor) : option (list (list string)) :=
  match (match line k with LineStart => Some k | _ => end_of_line k end) with
  | None => None
  | Some k =>
      let open :=
        negb (String.eqb (field (self k)) "")
        || match state (self k) with IN_QUOTED_FIELD => true | _ => false end
      in
      if open then Some (rows k ++ [fields (self k) ++ [field (self k)]])
      else Some (rows k)
  end.

(** A cursor written out by its five components. *)
Definition cursor (s : ParserState) (b : string) (fs : list string)
    (l : LinePosition) (rs : list (list string)) : Cursor :=
  {| self := {| state := s; field := b; fields := fs |};
     line := l; rows := rs |}.

(** The state in which a written field leaves the reader that met it in
    state [s]. *)
Definition after_field (s : ParserState) (f : string) : ParserState :=
  if any needs_quotes f then QUOTE_IN_QUOTED_FIELD
  else match f with EmptyString => s | _ => IN_FIELD end.

(** [list(csv.reader(f))] for a file [f] with this text.  The limit on the
    size of a field ([csv.field_size_limit]) is a setting of this reader,
    not of the format, and is left out. *)
Definition reader (text : string) : option (list (list string)) :=
  match feed_all start text with
  | None => None
  | Some k => end_of_input k
  end.

End Csv.

(** ** Encoding text as UTF-8 *)

Module Utf8.

(** What [str.encode('utf-8')] accepts.  A [str] is modelled by its bytes
    under UTF-8 with [surrogateescape], the encoding Python uses for file
    names: a byte outside every well-formed UTF-8 sequence stands for the
    lone surrogate by which [os.walk] keeps it.  Encoding raises
    [UnicodeEncodeError] on a lone surrogate, so it succeeds exactly on the
    strings whose bytes are well-formed UTF-8: no overlong form, no
    surrogate, nothing above U+10FFFF. *)

(** Where the decoder stands: between characters, or inside a sequence with
    one, two or three bytes to come; after the lead bytes E0, ED, F0 and F4
    the next byte has a narrower range. *)
Inductive state := Start | T1 | T2 | T3 | E0 | ED | F0 | F4.

Definition between (lo hi n : N) : bool := ((lo <=? n) && (n <=? hi))%N.

Definition step (st : state) (c : ascii) : option state :=
  let n := N_of_ascii c in
  match st with
  | Start =>
      if (n <=? 127)%N then Some Start
      else if between 194 223 n then Some T1
      else if (n =? 224)%N then Some E0
      else if between 225 236 n || between 238 239 n then Some T2
      else if (n =? 237)%N then Some ED
      else if (n =? 240)%N then Some F0
      else if between 241 243 n then Some T3
      else if (n =? 244)%N then Some F4
      else None
  | T1 => if between 128 191 n then Some Start else None
  | T2 => if between 128 191 n then Some T1 else None
  | T3 => if between 128 191 n then Some T2 else None
  | E0 => if between 160 191 n then Some T1 else None
  | ED => if between 128 159 n then Some T1 else None
  | F0 => if between 144 191 n then Some T2 else None
  | F4 => if between 128 143 n then Some T2 else None
  end.

Fixpoint run (st : state) (s : string) : option state :=
  match s with
  | EmptyString => Some st
  | String c rest =>
      match step st c with
      | Some st' => run st' rest
      | None => None
      end
  end.

(** The text can be encoded: its bytes end between two characters. *)
Definition valid (s : string) : bool :=
  match run Start s with
  | Some Start => true
  | _ => false
  end.

End Utf8.

(** ** [isw_data_parser/dataset.py] *)

Module Dataset.

(** *** The file system *)

(** A directory entry is a file or a directory.  A file holds its decoded
    characters, or [None] when reading it raises (the bytes are not UTF-8,
    or the file cannot be read).  A directory lists its entries in the
    order [os.scandir] gives them. *)
Inductive node :=
| File (data : option string)
| Dir (entries : list (string * node)).

(** A path relative to the working directory, one name per component. *)
Definition path : Type := list string.

Fixpoint lookup_entry (entries : list (string * node)) (name : string)
  : option node :=
  match entries with
  | [] => None
  | (n, x) :: rest => if String.eqb n name then Some x else lookup_entry rest name
  end.

Fixpoint resolve (fs : node) (p : path) : option node :=
  match p with
  | [] => Some fs
  | name :: p' =>
      match fs with
      | Dir entries =>
          match lookup_entry entries name with
          | Some x => resolve x p'
          | None => None
          end
      | File _ => None
      end
  end.

(** Text mode with the default [newline=None]: on reading, CR LF and a lone
    CR both become LF. *)
Fixpoint universal_newlines (s : string) : string :=
  match s with
  | EmptyString => ""
  | String c rest =>
      if Ascii.eqb c Csv.CR then
        match rest with
        | String c' rest' =>
            if Ascii.eqb c' Csv.LF
            then String Csv.LF (universal_newlines rest')
            else String Csv.LF (universal_newlines rest)
        | EmptyString => String Csv.LF ""
        end
      else String c (universal_newlines rest)
  end.

(** [open(p, encoding='utf-8').read()] *)
Definition read_text (fs : node) (p : path) : option string :=
  match resolve fs p with
  | Some (File (Some data)) => Some (universal_newlines data)
  | _ => None
  end.

Definition is_dir (x : node) : bool :=
  match x with Dir _ => true | File _ => false end.

Definition dirnames (entries : list (string * node)) : list string :=
  map fst (List.filter (fun e => is_dir (snd e)) entries).

Definition filenames (entries : list (string * node)) : list string :=
  map fst (List.filter (fun e => negb (is_dir (snd e))) entries).

(** [os.walk], top down: the directory itself, then each of its
    subdirectories in turn. *)
Fixpoint walk (top : path) (x : node) : list (path * list string * list string) :=
  match x with
  | File _ => []
  | Dir entries =>
      (top, dirnames entries, filenames entries)
      :: flat_map (fun e => if is_dir (snd e)
                            then walk (top ++ [fst e]) (snd e)
                            else []) entries
  end.

(** [os.walk(top)]: nothing at all when [top] is not a directory. *)
Definition os_walk (fs : node) (top : path)
  : list (path * list string * list string) :=
  match resolve fs top with
  | Some x => walk top x
  | None => []
  end.

(** *** [os.path.splitext] on a name without separators *)

Definition is_dot (c : ascii) : bool := Ascii.eqb c ".".

(** [p.rfind('.')] *)
Fixpoint rfind_dot (p : string) : option nat :=
  match p with
  | EmptyString => None
  | String c rest =>
      match rfind_dot rest with
      | Some i => Some (S i)
      | None => if is_dot c then Some O else None
      end
  end.

Fixpoint all_dots (n : nat) (p : string) : bool :=
  match n, p with
  | S n', String c rest => is_dot c && all_dots n' rest
  | _, _ => true
  end.

(** [genericpath._splitext]: the extension starts at the last dot, unless
    only dots come before it. *)
Definition splitext (p : string) : string * string :=
  match rfind_dot p with
  | Some dotIndex =>
      if all_dots dotIndex p then (p, "")
      else (String.substring 0 dotIndex p,
            String.substring dotIndex (String.length p - dotIndex) p)
  | None => (p, "")
  end.

(** [re.sub('\n', ' ', text)] *)
Fixpoint re_sub_newline_space (text : string) : string :=
  match text with
  | EmptyString => ""
  | String c rest =>
      String (if Ascii.eqb c Csv.LF then " "%char else c)
             (re_sub_newline_space rest)
  end.

(** *** The two functions and [main] *)

(** The inner loop: [for file in files]. *)
Fixpoint read_files (fs : node) (subdir : path) (files : list string)
    (files_data_by_date : list (string * string))
  : option (list (string * string)) :=
  match files with
  | [] => Some files_data_by_date
  | file :: rest =>
      let name := fst (splitext file) in
      match read_text fs (subdir ++ [file]) with
      | Some text =>
          read_files fs subdir rest
            (files_data_by_date ++ [(name, re_sub_newline_space text)])
      | None => None
      end
  end.

(** The outer loop: [for subdir, dirs, files in os.walk(root_folder)]. *)
Fixpoint read_dirs (fs : node) (walked : list (path * list string * list string))
    (files_data_by_date : list (string * string))
  : option (list (string * string)) :=
  match walked with
  | [] => Some files_data_by_date
  | (subdir, _, files) :: rest =>
      match read_files fs subdir files files_data_by_date with
      | Some acc => read_dirs fs rest acc
      | None => None
      end
  end.

(** [None] when an [open] or a [read] raises. *)
Definition read_data_from_files (fs : node) (root_folder : string)
  : option (list (string * string)) :=
  read_dirs fs (os_walk fs [root_folder]) [].

Fixpoint set_entry (entries : list (string * node)) (name : string) (x : node)
  : list (string * node) :=
  match entries with
  | [] => [(name, x)]
  | (n, y) :: rest =>
      if String.eqb n name then (n, x) :: rest
      else (n, y) :: set_entry rest name x
  end.

(** [os.makedirs(name, exist_ok=True)] for a single component below the
    working directory: [None] when the name is taken by a file. *)
Definition makedirs (fs : node) (name : string) : option node :=
  match fs with
  | Dir entries =>
      match lookup_entry entries name with
      | Some (Dir _) => Some fs
      | Some (File _) => None
      | None => Some (Dir (set_entry entries name (Dir [])))
      end
  | File _ => None
  end.

(** [open(dir/name, 'w', newline='', encoding='utf-8')], writing [text] and
    closing: the file is created or truncated, and the text is stored as it
    is.  [None] when the directory is missing, when the name is a directory,
    or when the text cannot be encoded as UTF-8: the write then raises
    [UnicodeEncodeError].  The truncated file that such a write leaves behind
    is not described: a run that raises has no resulting file system here. *)
Definition write_text (fs : node) (dir name : string) (text : string)
  : option node :=
  match fs with
  | Dir entries =>
      match lookup_entry entries dir with
      | Some (Dir files) =>
          match lookup_entry files name with
          | Some (Dir _) => None
          | _ =>
              if Utf8.valid text
              then Some (Dir (set_entry entries dir
                                (Dir (set_entry files name (File (Some text))))))
              else None
          end
      | _ => None
      end
  | File _ => None
  end.

Definition dataset_dir : string := "datasets".
Definition dataset_file : string := "dataset.csv".

(** [dataset_path = 'datasets/dataset.csv'] *)
Definition dataset_path : path := [dataset_dir; dataset_file].

Definition as_row (kv : string * string) : list string := [fst kv; snd kv].

(** What the writer has put in the file when it is closed. *)
Definition csv_text (key_value_list : list (string * string)) : string :=
  Csv.writerow ["Date"; "Text"] +:+ Csv.writerows (map as_row key_value_list).

Definition create_csv_dataset (fs : node)
    (key_value_list : list (string * string)) : option node :=
  match makedirs fs dataset_dir with
  | Some fs' => write_text fs' dataset_dir dataset_file (csv_text key_value_list)
  | None => None
  end.

(** [read_data_from_files()] with its default argument. *)
Definition root_folder : string := "row_data".

Definition main (fs : node) : option node :=
  match read_data_from_files fs root_folder with
  | Some key_value_list => create_csv_dataset fs key_value_list
  | None => None
  end.

End Dataset.

(** ** [weather_app/app.py] *)

Module WeatherApp.
Import Py.

(** *** The outside world *)

(** One call of [requests.request(method, url, params=params)]. *)
Record http_call := {
  call_method : string;
  call_url : string;
  call_params : dict
}.

(** What comes back from the provider: [response.status_code] and
    [response.text]. *)
Record http_reply := { reply_status : Z; reply_text : string }.

(** The process-wide configuration and the libraries the service calls:
    the two environment variables read at import time, [json.loads]
    ([None] when it raises [JSONDecodeError]), the network behind
    [requests.request] ([None] when it raises instead of returning a
    response) and the wall clock read by [datetime.now()], indexed by the
    number of earlier reads. *)
Record environment := {
  API_TOKEN : option string;
  WEATHER_API_KEY : option string;
  loads : string -> option value;
  network : http_call -> option http_reply;
  clock : nat -> DateTime.datetime
}.

(** [class InvalidUsage(Exception)] *)
Record InvalidUsage := {
  message : string;
  status_code : Z;
  payload : option dict
}.

(** [InvalidUsage.__init__]: the class attribute [status_code = 400] stays
    unless a status code is given. *)
Definition new_InvalidUsage
    (message : string) (status_code : option Z) (payload : option dict)
  : InvalidUsage :=
  {| message := message;
     status_code := match status_code with Some c => c | None => 400 end;
     payload := payload |}.

(** [InvalidUsage.to_dict]: [dict(self.payload or ())] and then the message. *)
Definition to_dict (self : InvalidUsage) : dict :=
  let rv := match payload self with
            | Some p => if truthy (PyDict p) then p else []
            | None => []
            end in
  dict_set rv "message" (PyStr (message self)).

(** The exceptions that can leave a view. *)
Inductive exception :=
| EInvalidUsage (e : InvalidUsage)
| AttributeError
| JSONDecodeError
| RequestException.

(** What the service has done so far: how often it read the clock and the
    outbound calls it made, oldest first. *)
Record world := { ticks : nat; calls : list http_call }.

Definition initial : world := {| ticks := O; calls := [] |}.

Inductive outcome (A : Type) :=
| Return (a : A)
| Raise (e : exception).
Arguments Return {A} a.
Arguments Raise {A} e.

(** Computations that read the clock, call the provider and may raise. *)
Definition M (A : Type) : Type := world -> outcome A * world.

Definition ret {A} (a : A) : M A := fun w => (Return a, w).

Definition raise {A} (e : exception) : M A := fun w => (Raise e, w).

Definition bind {A B} (c : M A) (k : A -> M B) : M B :=
  fun w => match c w with
           | (Return a, w') => k a w'
           | (Raise e, w') => (Raise e, w')
           end.

Notation "x <- c ;; k" := (bind c (fun x => k))
  (at level 100, c at next level, right associativity).

(** [v.get(k)]: only a [dict] has the method. *)
Definition get (v : value) (k : string) : M value :=
  match v with
  | PyDict d => ret (dict_get d k)
  | _ => raise AttributeError
  end.

(** The request context of a request whose body Flask has decoded:
    [request.get_json()] gives the decoded body.  A request that Flask cannot
    decode never gets as far as the checks, see [full_dispatch_request]. *)
Record Request := { get_json : value }.

(** A POST as it arrives: whether its content type is JSON
    ([request.is_json]: [application/json] or [application/*+json]), and its
    body. *)
Record HttpRequest := { is_json : bool; data : string }.

(** A Flask response: the status and either a JSON body or the framework's
    own error page. *)
Inductive body :=
| Json (v : value)
| Html (s : string).

Record Response := { status : Z; content : body }.

Definition url_base_url : string := "http://api.weatherapi.com/v1".

Section Service.

Variable E : environment.

Definition datetime_now : M DateTime.datetime :=
  fun w => (Return (clock E (ticks w)),
            {| ticks := S (ticks w); calls := calls w |}).

(** [requests.request(method, url, params=params)] *)
Definition requests_request (method url : string) (params : dict)
  : M http_reply :=
  fun w =>
    let c := {| call_method := method; call_url := url;
                call_params := params |} in
    let w' := {| ticks := ticks w; calls := calls w ++ [c] |} in
    match network E c with
    | Some r => (Return r, w')
    | None => (Raise RequestException, w')
    end.

(** [json.loads(text)] *)
Definition json_loads (text : string) : M value :=
  match loads E text with
  | Some v => ret v
  | None => raise JSONDecodeError
  end.

Definition get_current_weather (q lang : value) : M value :=
  let url_endpoint := "current.json" in
  let url := url_base_url +:+ "/" +:+ url_endpoint in
  let params := [("key", of_getenv (WEATHER_API_KEY E)); ("q", q)] in
  let params := if truthy lang then dict_set params "lang" lang else params in
  response <- requests_request "GET" url params ;;
  json_loads (reply_text response).

Definition get_weather_forecast (q days lang : value) : M value :=
  let url_endpoint := "forecast.json" in
  let url := url_base_url +:+ "/" +:+ url_endpoint in
  let params := [("key", of_getenv (WEATHER_API_KEY E)); ("q", q);
                 ("days", days)] in
  let params := if truthy lang then dict_set params "lang" lang else params in
  response <- requests_request "GET" url params ;;
  json_loads (reply_text response).

Definition get_weather_history (q dt end_dt lang : value) : M value :=
  let url_endpoint := "history.json" in
  let url := url_base_url +:+ "/" +:+ url_endpoint in
  let params := [("key", of_getenv (WEATHER_API_KEY E)); ("q", q);
                 ("dt", dt)] in
  let params :=
    if truthy end_dt then dict_set params "end_dt" end_dt else params in
  let params := if truthy lang then dict_set params "lang" lang else params in
  response <- requests_request "GET" url params ;;
  json_loads (reply_text response).

(** A view function, run inside a request context. *)
Definition view : Type := Request -> M dict.

Definition authorize_and_validate_request (f : view) : view :=
  fun request =>
    let json_data := get_json request in
    absent <- get json_data "token" ;;
    if is_none absent then
      raise (EInvalidUsage
               (new_InvalidUsage "token is required" (Some 400) None))
    else
      token <- get json_data "token" ;;
      if negb (eq_getenv token (API_TOKEN E)) then
        raise (EInvalidUsage
                 (new_InvalidUsage "wrong API token" (Some 403) None))
      else
        weather <- get json_data "weather" ;;
        if negb (truthy weather) then
          raise (EInvalidUsage
                   (new_InvalidUsage "weather params must be provided"
                                     (Some 400) None))
        else f request.

Definition add_execution_time_params_to_response (f : view) : view :=
  fun request =>
    start_dt <- datetime_now ;;
    response <- f request ;;
    end_dt <- datetime_now ;;
    let execution_time_params :=
      [("event_start_datetime", PyStr (DateTime.isoformat start_dt));
       ("event_finished_datetime", PyStr (DateTime.isoformat end_dt));
       ("event_duration",
        PyStr (DateTime.timedelta_str (DateTime.sub end_dt start_dt)))] in
    ret (dict_update response execution_time_params).

Definition handle_invalid_usage (error : InvalidUsage) : Response :=
  {| status := status_code error; content := Json (PyDict (to_dict error)) |}.

Definition current_weather_endpoint : view :=
  authorize_and_validate_request
    (add_execution_time_params_to_response
       (fun request =>
          let json_data := get_json request in
          weather_params <- get json_data "weather" ;;
          q <- get weather_params "q" ;;
          lang <- get weather_params "lang" ;;
          weather <- get_current_weather q lang ;;
          ret [("weather", weather)])).

Definition weather_forecast_endpoint : view :=
  authorize_and_validate_request
    (add_execution_time_params_to_response
       (fun request =>
          let json_data := get_json request in
          weather_params <- get json_data "weather" ;;
          q <- get weather_params "q" ;;
          days <- get weather_params "days" ;;
          lang <- get weather_params "lang" ;;
          weather <- get_weather_forecast q days lang ;;
          ret [("weather", weather)])).

Definition weather_history_endpoint : view :=
  authorize_and_validate_request
    (add_execution_time_params_to_response
       (fun request =>
          let json_data := get_json request in
          weather_params <- get json_data "weather" ;;
          q <- get weather_params "q" ;;
          dt <- get weather_params "dt" ;;
          end_dt <- get weather_params "end_dt" ;;
          lang <- get weather_params "lang" ;;
          weather <- get_weather_history q dt end_dt lang ;;
          ret [("weather", weather)])).

(** [GET /] *)
Definition home_page : string := "<p><h2>KMA L2: Python Saas. Weather</h2></p>".

(** The three POST routes. *)
Inductive endpoint := Current | Forecast | History.

Definition url_rule (e : endpoint) : string :=
  match e with
  | Current => "/content/api/v1/integration/weather/current"
  | Forecast => "/content/api/v1/integration/weather/forecast"
  | History => "/content/api/v1/integration/weather/history"
  end.

Definition view_of (e : endpoint) : view :=
  match e with
  | Current => current_weather_endpoint
  | Forecast => weather_forecast_endpoint
  | History => weather_history_endpoint
  end.

(** Flask around a view: a returned [dict] is sent as JSON with status 200,
    [InvalidUsage] goes to its registered handler, and any other exception
    becomes the framework's 500 page. *)
Definition internal_server_error : Response :=
  {| status := 500; content := Html "Internal Server Error" |}.

Definition dispatch (e : endpoint) (request : Request) (w : world)
  : Response * world :=
  match view_of e request w with
  | (Return rv, w') => ({| status := 200; content := Json (PyDict rv) |}, w')
  | (Raise (EInvalidUsage error), w') => (handle_invalid_usage error, w')
  | (Raise _, w') => (internal_server_error, w')
  end.

(** [request.get_json()] on a request as it arrives: werkzeug aborts with
    [UnsupportedMediaType] when the content type is not JSON and with
    [BadRequest] when [json.loads] rejects the body, and Flask answers with
    the page of the exception, since the application registers no handler
    for either. *)
Definition unsupported_media_type : Response :=
  {| status := 415; content := Html "Unsupported Media Type" |}.

Definition bad_request : Response :=
  {| status := 400; content := Html "Bad Request" |}.

(** A POST to one of the routes.  [request.get_json()] is the first
    statement of the wrapper of [authorize_and_validate_request], so its
    abort comes before every check and before the clock is read; its result
    is cached, so the view sees the same decoded body. *)
Definition full_dispatch_request (e : endpoint) (r : HttpRequest) (w : world)
  : Response * world :=
  if is_json r then
    match loads E (data r) with
    | Some json_data => dispatch e {| get_json := json_data |} w
    | None => (bad_request, w)
    end
  else (unsupported_media_type, w).

End Service.

End WeatherApp.

(** ** Vocabulary of the properties *)

Module Props.
Import Py WeatherApp.

(** The structured error response: the status, and a JSON object that holds
    only the message. *)
Definition structured_error (code : Z) (msg : string) : Response :=
  {| status := code; content := Json (PyDict [("message", PyStr msg)]) |}.

(** The token of the body is there ([get] does not give [None]) and is the
    configured one. *)
Definition authorized (E : environment) (body : dict) : Prop :=
  dict_get body "token" <> PyNone /\
  dict_get body "token" = of_getenv (API_TOKEN E).

(** The three ways a body fails the checks, in the order of the checks. *)
Inductive rejected (E : environment) (body : dict) : Z -> string -> Prop :=
| token_missing :
    dict_lookup body "token" = None ->
    rejected E body 400 "token is required"
| token_wrong token :
    dict_lookup body "token" = Some token ->
    token <> PyNone ->
    token <> of_getenv (API_TOKEN E) ->
    rejected E body 403 "wrong API token"
| weather_missing :
    authorized E body ->
    (dict_lookup body "weather" = None \/
     exists w, dict_lookup body "weather" = Some w /\ truthy w = false) ->
    rejected E body 400 "weather params must be provided".

(** A body that passes the checks and whose [weather] is an object. *)
Definition well_formed (E : environment) (body weather_params : dict) : Prop :=
  authorized E body /\
  dict_lookup body "weather" = Some (PyDict weather_params) /\
  weather_params <> [].

(** The three provider lookups with their arguments. *)
Inductive lookup :=
| CurrentLookup (q lang : value)
| ForecastLookup (q days lang : value)
| HistoryLookup (q dt end_dt lang : value).

Definition run_lookup (E : environment) (l : lookup) : M value :=
  match l with
  | CurrentLookup q lang => get_current_weather E q lang
  | ForecastLookup q days lang => get_weather_forecast E q days lang
  | HistoryLookup q dt end_dt lang => get_weather_history E q dt end_dt lang
  end.

Definition suffix (l : lookup) : string :=
  match l with
  | CurrentLookup _ _ => "current.json"
  | ForecastLookup _ _ _ => "forecast.json"
  | HistoryLookup _ _ _ _ => "history.json"
  end.

Definition lang_of (l : lookup) : value :=
  match l with
  | CurrentLookup _ lang => lang
  | ForecastLookup _ _ lang => lang
  | HistoryLookup _ _ _ lang => lang
  end.

Definition with_lang (l : lookup) (lang : value) : lookup :=
  match l with
  | CurrentLookup q _ => CurrentLookup q lang
  | ForecastLookup q days _ => ForecastLookup q days lang
  | HistoryLookup q dt end_dt _ => HistoryLookup q dt end_dt lang
  end.

(** The same environment with every provider status rewritten. *)
Definition with_status (f : Z -> Z) (E : environment) : environment :=
  {| API_TOKEN := API_TOKEN E;
     WEATHER_API_KEY := WEATHER_API_KEY E;
     loads := loads E;
     network := fun c =>
       match network E c with
       | Some r => Some {| reply_status := f (reply_status r);
                           reply_text := reply_text r |}
       | None => None
       end;
     clock := clock E |}.

(** The scheme of a URL is https. *)
Definition is_https (url : string) : bool := String.prefix "https://" url.

(** The lookup an endpoint makes for the [weather] object of the body. *)
Definition lookup_of (e : endpoint) (weather_params : dict) : lookup :=
  match e with
  | Current =>
      CurrentLookup (dict_get weather_params "q")
                    (dict_get weather_params "lang")
  | Forecast =>
      ForecastLookup (dict_get weather_params "q")
                     (dict_get weather_params "days")
                     (dict_get weather_params "lang")
  | History =>
      HistoryLookup (dict_get weather_params "q")
                    (dict_get weather_params "dt")
                    (dict_get weather_params "end_dt")
                    (dict_get weather_params "lang")
  end.

(** The success body: the provider's JSON and the three timing fields of a
    request that read the clock at [start_dt] and at [end_dt]. *)
Definition timed_body (weather : value) (start_dt end_dt : DateTime.datetime)
  : dict :=
  [("weather", weather);
   ("event_start_datetime", PyStr (DateTime.isoformat start_dt));
   ("event_finished_datetime", PyStr (DateTime.isoformat end_dt));
   ("event_duration",
    PyStr (DateTime.timedelta_str (DateTime.sub end_dt start_dt)))].

(** The calls a computation adds to those made before it. *)
Definition issued {A} (m : M A) (w : world) : list http_call :=
  drop (length (calls w)) (calls (snd (m w))).

(** [del d[k]] *)
Definition dict_remove (d : dict) (k : string) : dict :=
  List.filter (fun kv => negb (String.eqb (fst kv) k)) d.

End Props.

(** ** Vocabulary of the dataset builder's properties *)

Module Corpus.
Import Dataset.

(** In a directory no two entries have the same name, at any depth. *)
Fixpoint names_unique (names : list string) : bool :=
  match names with
  | [] => true
  | n :: rest => negb (existsb (String.eqb n) rest) && names_unique rest
  end.

Fixpoint wf (x : node) : bool :=
  match x with
  | File _ => true
  | Dir entries =>
      names_unique (map fst entries)
      && forallb (fun e => wf (snd e)) entries
  end.

(** The files of a tree, each once, with the path that leads to it and what
    it holds: the files of the directory itself, then those of each
    subdirectory. *)
Definition direct_files (top : path) (entries : list (string * node))
  : list (path * option string) :=
  flat_map (fun e => match snd e with
                     | File data => [(top ++ [fst e], data)]
                     | Dir _ => []
                     end) entries.

Fixpoint files_of (top : path) (x : node) : list (path * option string) :=
  match x with
  | File _ => []
  | Dir entries =>
      direct_files top entries
      ++ flat_map (fun e => files_of (top ++ [fst e]) (snd e)) entries
  end.

(** The last component of a path. *)
Definition basename (p : path) : string := List.last p "".

(** Every line break of the text, written CR LF, CR or LF, replaced by one
    space. *)
Fixpoint line_breaks_to_spaces (s : string) : string :=
  match s with
  | EmptyString => ""
  | String c rest =>
      if Ascii.eqb c Csv.CR then
        match rest with
        | String c' rest' =>
            if Ascii.eqb c' Csv.LF
            then String " " (line_breaks_to_spaces rest')
            else String " " (line_breaks_to_spaces rest)
        | EmptyString => " "
        end
      else if Ascii.eqb c Csv.LF then String " " (line_breaks_to_spaces rest)
      else String c (line_breaks_to_spaces rest)
  end.

(** The record of one file; none when the file cannot be read. *)
Definition record_of (f : path * option string) : option (string * string) :=
  match snd f with
  | Some data =>
      Some (fst (splitext (basename (fst f))), line_breaks_to_spaces data)
  | None => None
  end.

(** The records of a list of files, in order; none as soon as one file
    cannot be read. *)
Fixpoint records_of (files : list (path * option string))
  : option (list (string * string)) :=
  match files with
  | [] => Some []
  | f :: rest =>
      match record_of f, records_of rest with
      | Some r, Some rs => Some (r :: rs)
      | _, _ => None
      end
  end.

(** [main] run [n] times in a row. *)
Fixpoint runs (n : nat) (fs : node) : option node :=
  match n with
  | O => Some fs
  | S n' =>
      match main fs with
      | Some fs' => runs n' fs'
      | None => None
      end
  end.

End Corpus.

(** ** Sample data *)

Module Sample.
Import Py WeatherApp.

Definition morning : DateTime.datetime :=
  {| DateTime.year := 2024; DateTime.month := 3; DateTime.day := 1;
     DateTime.hour := 9; DateTime.minute := 5; DateTime.second := 7;
     DateTime.microsecond := 0 |}.

Definition a_moment_later : DateTime.datetime :=
  {| DateTime.year := 2024; DateTime.month := 3; DateTime.day := 1;
     DateTime.hour := 9; DateTime.minute := 5; DateTime.second := 8;
     DateTime.microsecond := 1234 |}.

Definition sunny : value := PyDict [("current", PyDict [("temp_c", PyInt 21)])].

(** A provider that answers every call with the same JSON text, which the
    decoder knows. *)
Definition env : environment :=
  {| API_TOKEN := Some "s3cret";
     WEATHER_API_KEY := Some "k3y";
     loads := fun text => if String.eqb text "sunny" then Some sunny else None;
     network := fun _ => Some {| reply_status := 200; reply_text := "sunny" |};
     clock := fun n => match n with O => morning | _ => a_moment_later end |}.

(** The same service started with neither variable set. *)
Definition unset_env : environment :=
  {| API_TOKEN := None;
     WEATHER_API_KEY := None;
     loads := loads env;
     network := network env;
     clock := clock env |}.

(** A provider whose answer is not JSON. *)
Definition garbled_env : environment :=
  {| API_TOKEN := API_TOKEN env;
     WEATHER_API_KEY := WEATHER_API_KEY env;
     loads := loads env;
     network := fun _ => Some {| reply_status := 502; reply_text := "<html>" |};
     clock := clock env |}.

Definition paris : dict :=
  [("q", PyStr "Paris"); ("days", PyInt 100); ("dt", PyStr "2009-12-31");
   ("end_dt", PyStr "2024-02-30"); ("lang", PyStr "fr")].

Definition good_body : dict :=
  [("token", PyStr "s3cret"); ("weather", PyDict paris)].

(** A history request whose [end_dt] is the empty string. *)
Definition empty_end_dt_body : dict :=
  [("token", PyStr "s3cret");
   ("weather", PyDict [("q", PyStr "Paris"); ("dt", PyStr "2024-03-01");
                       ("end_dt", PyStr "")])].

(** The clock of a host whose local time is set back an hour between the
    two readings of one request, as at the end of summer time. *)
Definition before_the_change : DateTime.datetime :=
  {| DateTime.year := 2024; DateTime.month := 10; DateTime.day := 27;
     DateTime.hour := 3; DateTime.minute := 59; DateTime.second := 59;
     DateTime.microsecond := 900000 |}.

Definition after_the_change : DateTime.datetime :=
  {| DateTime.year := 2024; DateTime.month := 10; DateTime.day := 27;
     DateTime.hour := 3; DateTime.minute := 0; DateTime.second := 0;
     DateTime.microsecond := 100000 |}.

Definition autumn_env : environment :=
  {| API_TOKEN := API_TOKEN env;
     WEATHER_API_KEY := WEATHER_API_KEY env;
     loads := loads env;
     network := network env;
     clock := fun n => match n with
                       | O => before_the_change
                       | _ => after_the_change
                       end |}.

(** A tree of reports with the same file name in two directories, and a
    working directory that already holds an older output. *)
Definition reports : Dataset.node :=
  Dataset.Dir
    [("a.txt", Dataset.File (Some ("hello" +:+ String Csv.LF "world")));
     ("sub", Dataset.Dir
               [("b.txt", Dataset.File (Some "x"));
                ("a.txt", Dataset.File (Some "again"))])].

Definition disk : Dataset.node :=
  Dataset.Dir
    [("row_data", reports);
     ("datasets", Dataset.Dir [("dataset.csv", Dataset.File (Some "stale"))])].

Definition records : list (string * string) :=
  [("a", "hello world"); ("b", "x"); ("a", "again")].

Definition disk_after : Dataset.node :=
  Dataset.Dir
    [("row_data", reports);
     ("datasets",
      Dataset.Dir
        [("dataset.csv", Dataset.File (Some (Dataset.csv_text records)))])].

End Sample.

(** ** Vocabulary and sample data of the further properties *)

Module Further.
Import Py WeatherApp Props.

(** The three keys the timing decorator writes. *)
Definition timing_keys : list string :=
  ["event_start_datetime"; "event_finished_datetime"; "event_duration"].

(** The names of the parameters an endpoint hands to [requests.request] for
    the [weather] object of the body, in the order in which the code puts
    them in its [params]. *)
Definition param_names (e : endpoint) (weather_params : dict) : list string :=
  ["key"; "q"]
  ++ match e with
     | Current => []
     | Forecast => ["days"]
     | History =>
         "dt" :: (if truthy (dict_get weather_params "end_dt")
                  then ["end_dt"] else [])
     end
  ++ (if truthy (dict_get weather_params "lang") then ["lang"] else []).

(** Every name and every text of the records can be encoded as UTF-8. *)
Definition encodable (key_value_list : list (string * string)) : bool :=
  forallb (fun kv => Utf8.valid (fst kv) && Utf8.valid (snd kv))
          key_value_list.


(** How often a character occurs in a text. *)
Fixpoint count (c : ascii) (s : string) : nat :=
  match s with
  | EmptyString => O
  | String c' rest => (if Ascii.eqb c' c then 1 else 0) + count c rest
  end.

(** A provider that cannot be reached. *)
Definition offline_env : environment :=
  {| API_TOKEN := API_TOKEN Sample.env;
     WEATHER_API_KEY := WEATHER_API_KEY Sample.env;
     loads := loads Sample.env;
     network := fun _ => None;
     clock := clock Sample.env |}.

(** The sample body with keys the service does not read. *)
Definition noisy_body : dict :=
  [("token", PyStr "s3cret"); ("debug", PyBool true);
   ("weather", PyDict (("aqi", PyStr "yes") :: Sample.paris))].

(** An error with a payload that has a message of its own. *)
Definition error_with_payload : InvalidUsage :=
  new_InvalidUsage "quota exceeded" (Some 429)
    (Some [("message", PyStr "ignored"); ("retry_after", PyInt 30)]).

(** A view that answers with a timing key of its own. *)
Definition stub_view : view :=
  fun _ => ret [("weather", PyNone); ("event_duration", PyStr "mine");
                ("cached", PyBool false)].

(** A working directory without [datasets], and one whose reports hold a
    file that cannot be read. *)
Definition bare_disk : Dataset.node :=
  Dataset.Dir [("row_data", Sample.reports)].

Definition damaged_reports : Dataset.node :=
  Dataset.Dir
    [("a.txt", Dataset.File (Some "fine"));
     ("sub", Dataset.Dir [("b.bin", Dataset.File None)])].

Definition damaged_disk : Dataset.node :=
  Dataset.Dir
    [("row_data", damaged_reports);
     ("datasets", Dataset.Dir [("dataset.csv", Dataset.File (Some "stale"))])].

(** A working directory with other things in it, among them another file
    next to the output. *)
Definition busy_disk : Dataset.node :=
  Dataset.Dir
    [("notes.md", Dataset.File (Some "keep"));
     ("row_data", Sample.reports);
     ("datasets",
      Dataset.Dir [("old.csv", Dataset.File (Some "older"));
                   ("dataset.csv", Dataset.File (Some "stale"))])].

Definition busy_disk_after : Dataset.node :=
  Dataset.Dir
    [("notes.md", Dataset.File (Some "keep"));
     ("row_data", Sample.reports);
     ("datasets",
      Dataset.Dir
        [("old.csv", Dataset.File (Some "older"));
         ("dataset.csv",
          Dataset.File (Some (Dataset.csv_text Sample.records)))])].

(** A form post, a JSON post whose body is cut short, and a JSON post of
    the text the sample decoder knows. *)
Definition form_post : HttpRequest :=
  {| is_json := false; data := "token=s3cret" |}.

Definition cut_short_post : HttpRequest :=
  {| is_json := true; data := "{" |}.

Definition sunny_post : HttpRequest :=
  {| is_json := true; data := "sunny" |}.





End Further.

(** ** The models on small inputs *)

Section SmallInputs.
Import Py WeatherApp Props.

Example splitext_of_a_report :
  Dataset.splitext "2022-02-24.txt" = ("2022-02-24", ".txt").
Proof. reflexivity. Qed.

Example splitext_keeps_all_but_the_last_extension :
  Dataset.splitext "report.tar.gz" = ("report.tar", ".gz").
Proof. reflexivity. Qed.

Example splitext_of_a_dot_file :
  Dataset.splitext ".hidden" = (".hidden", "").
Proof. reflexivity. Qed.

Example text_mode_reads_crlf_as_lf :
  Dataset.universal_newlines
    ("a" +:+ String Csv.CR (String Csv.LF ("b" +:+ String Csv.CR "c")))
  = "a" +:+ String Csv.LF ("b" +:+ String Csv.LF "c").
Proof. reflexivity. Qed.

Example writer_quotes_a_field_with_a_comma :
  Csv.writerow ["a"; "x,y"]
  = "a," +:+ String Csv.quotechar
               ("x,y" +:+ String Csv.quotechar Csv.lineterminator).
Proof. reflexivity. Qed.

Example writer_doubles_a_quote :
  Csv.join_append (String Csv.quotechar "")
  = String Csv.quotechar
      (String Csv.quotechar (String Csv.quotechar (String Csv.quotechar ""))).
Proof. reflexivity. Qed.

Example reader_takes_any_line_ending :
  Csv.reader ("a,b" +:+ String Csv.CR ("c" +:+ String Csv.LF "d,"))
  = Some [["a"; "b"]; ["c"]; ["d"; ""]].
Proof. reflexivity. Qed.

Example reader_returns_an_empty_row_for_an_empty_line :
  Csv.reader ("a" +:+ Csv.lineterminator +:+ Csv.lineterminator)
  = Some [["a"]; []].
Proof. reflexivity. Qed.

Example reader_keeps_a_line_break_inside_quotes :
  Csv.reader (String Csv.quotechar
                ("a" +:+ String Csv.LF ("b" +:+ String Csv.quotechar
                                               (",c" +:+ Csv.lineterminator))))
  = Some [["a" +:+ String Csv.LF "b"; "c"]].
Proof. reflexivity. Qed.

Example isoformat_leaves_out_zero_microseconds :
  DateTime.isoformat Sample.morning = "2024-03-01T09:05:07".
Proof. reflexivity. Qed.

Example isoformat_with_microseconds :
  DateTime.isoformat Sample.a_moment_later = "2024-03-01T09:05:08.001234".
Proof. reflexivity. Qed.

Example duration_of_a_request :
  DateTime.timedelta_str (DateTime.sub Sample.a_moment_later Sample.morning)
  = "0:00:01.001234".
Proof. reflexivity. Qed.

Example a_body_that_is_a_list_is_a_server_fault :
  dispatch Sample.env Current {| get_json := PyList [] |} initial
  = (internal_server_error, initial).
Proof. reflexivity. Qed.

Example weather_that_is_a_string_is_a_server_fault :
  fst (dispatch Sample.env Current
         {| get_json := PyDict [("token", PyStr "s3cret");
                                ("weather", PyStr "Paris")] |} initial)
  = internal_server_error.
Proof. reflexivity. Qed.

Example unset_token_rejects_every_token :
  fst (dispatch Sample.unset_env Current
         {| get_json := PyDict Sample.good_body |} initial)
  = structured_error 403 "wrong API token".
Proof. reflexivity. Qed.

Example payload_is_merged_into_the_error :
  to_dict (new_InvalidUsage "no" None (Some [("hint", PyStr "x")]))
  = [("hint", PyStr "x"); ("message", PyStr "no")].
Proof. reflexivity. Qed.

End SmallInputs.

(** ** Strings and dates: supporting facts *)

Section Strings.

Lemma append_nil_r (s : string) : s +:+ "" = s.
Proof. induction s as [|c s IH]; simpl; congruence. Qed.

Lemma append_assoc (a b c : string) : (a +:+ b) +:+ c = a +:+ (b +:+ c).
Proof. induction a as [|x a IH]; simpl; congruence. Qed.

Lemma length_append (a b : string) :
  String.length (a +:+ b) = (String.length a + String.length b)%nat.
Proof. induction a as [|x a IH]; simpl; [reflexivity | now rewrite IH]. Qed.

(** Strings of one length compare block by block. *)
Lemma compare_append (a b x y : string) :
  String.length a = String.length b ->
  String.compare (a +:+ x) (b +:+ y) =
  match String.compare a b with
  | Eq => String.compare x y
  | o => o
  end.
Proof.
  revert b. induction a as [|c a IH]; intros [|d b] Hlen; simpl in *;
    try discriminate; [reflexivity|].
  destruct (Ascii.compare c d); [|reflexivity..].
  apply IH. congruence.
Qed.

Lemma compare_same_head (c : ascii) (x y : string) :
  String.compare (String c x) (String c y) = String.compare x y.
Proof.
  cbn [String.compare]. unfold Ascii.compare. now rewrite N.compare_refl.
Qed.

End Strings.

Section Dates.
Import DateTime.

Lemma length_zero_padded (w : nat) (n : Z) :
  String.length (zero_padded w n) = w.
Proof.
  revert n. induction w as [|w IH]; intros n; simpl; [reflexivity|].
  rewrite length_append, IH. simpl. lia.
Qed.

Lemma compare_digit (a b : Z) :
  Ascii.compare (digit a) (digit b) = (a mod 10 ?= b mod 10).
Proof.
  unfold Ascii.compare, digit, ascii_of_nat.
  assert (Ha : 0 <= a mod 10 < 10) by (apply Z.mod_pos_bound; lia).
  assert (Hb : 0 <= b mod 10 < 10) by (apply Z.mod_pos_bound; lia).
  rewrite !N_ascii_embedding by lia.
  rewrite <- N2Z.inj_compare.
  set (x := Z.of_N _). set (y := Z.of_N _).
  assert (x = 48 + a mod 10) by lia. assert (y = 48 + b mod 10) by lia.
  destruct (Z.compare_spec (a mod 10) (b mod 10)), (Z.compare_spec x y);
    try reflexivity; lia.
Qed.

(** Zero-padded numbers of one width are ordered as the numbers are. *)
Lemma compare_zero_padded (w : nat) (a b : Z) :
  0 <= a < 10 ^ Z.of_nat w -> 0 <= b < 10 ^ Z.of_nat w ->
  String.compare (zero_padded w a) (zero_padded w b) = (a ?= b).
Proof.
  revert a b. induction w as [|w IH]; intros a b Ha Hb.
  - change (10 ^ Z.of_nat 0) with 1 in Ha, Hb. cbn [zero_padded].
    replace a with 0 by lia. replace b with 0 by lia. reflexivity.
  - rewrite Nat2Z.inj_succ, Z.pow_succ_r in Ha, Hb by lia.
    cbn [zero_padded].
    rewrite compare_append by now rewrite !length_zero_padded.
    rewrite IH by (split; [apply Z.div_pos|apply Z.div_lt_upper_bound]; lia).
    cbn [String.compare]. rewrite compare_digit.
    pose proof (Z.div_mod a 10 ltac:(lia)) as Hda.
    pose proof (Z.div_mod b 10 ltac:(lia)) as Hdb.
    pose proof (Z.mod_pos_bound a 10 ltac:(lia)).
    pose proof (Z.mod_pos_bound b 10 ltac:(lia)).
    destruct (Z.compare_spec (a / 10) (b / 10)) as [Hq|Hq|Hq].
    + destruct (Z.compare_spec (a mod 10) (b mod 10)), (Z.compare_spec a b);
        try reflexivity; lia.
    + destruct (Z.compare_spec a b); try reflexivity; lia.
    + destruct (Z.compare_spec a b); try reflexivity; lia.
Qed.

Lemma compare_fraction (a b : Z) :
  0 <= a <= 999999 -> 0 <= b <= 999999 ->
  String.compare (if a =? 0 then "" else "." +:+ zero_padded 6 a)
                 (if b =? 0 then "" else "." +:+ zero_padded 6 b)
  = (a ?= b).
Proof.
  intros Ha Hb.
  destruct (Z.eqb_spec a 0) as [->|Hna], (Z.eqb_spec b 0) as [->|Hnb].
  - reflexivity.
  - change (String.compare "" ("." +:+ zero_padded 6 b)) with Lt.
    symmetry. apply Z.compare_lt_iff. lia.
  - change (String.compare ("." +:+ zero_padded 6 a) "") with Gt.
    symmetry. apply Z.compare_gt_iff. lia.
  - change ("." +:+ zero_padded 6 a) with (String "." (zero_padded 6 a)).
    change ("." +:+ zero_padded 6 b) with (String "." (zero_padded 6 b)).
    cbn [String.compare].
    change (Ascii.compare "." ".") with Eq. cbv iota.
    apply compare_zero_padded; simpl; lia.
Qed.

(** ISO strings are ordered as the datetimes they print. *)
Lemma isoformat_monotone (a b : datetime) :
  valid a -> valid b -> leb a b = true ->
  String.leb (isoformat a) (isoformat b) = true.
Proof.
  intros (Hy & Hm & Hd & Hh & Hmi & Hs & Hus)
         (Hy' & Hm' & Hd' & Hh' & Hmi' & Hs' & Hus') Hle.
  unfold String.leb, isoformat, format_time.
  rewrite compare_append by now rewrite !length_zero_padded.
  rewrite compare_zero_padded by (cbn; lia).
  repeat (cbn [String.append]; rewrite compare_same_head;
          rewrite compare_append by (now rewrite !length_zero_padded);
          rewrite compare_zero_padded by (cbn; lia)).
  rewrite compare_fraction by assumption.
  unfold leb, fields in Hle. cbn [lex_leb] in Hle.
  rewrite ?orb_true_iff, ?andb_true_iff, ?Z.ltb_lt, ?Z.eqb_eq in Hle.
  repeat match goal with
         | |- context [?x ?= ?y] => destruct (Z.compare_spec x y)
         end; try reflexivity; lia.
Qed.

End Dates.

(** ** The weather proxy service: properties *)

Section WeatherProperties.
Import Py WeatherApp Props.

Variable E : environment.

Lemma eq_getenv_spec (v : value) (c : option string) :
  eq_getenv v c = true <-> v = of_getenv c.
Proof.
  destruct v, c; simpl; split; intros H; try congruence; try discriminate.
  - apply String.eqb_eq in H. congruence.
  - injection H as ->. apply String.eqb_refl.
Qed.

Lemma dict_get_present (d : dict) (k : string) (v : value) :
  dict_lookup d k = Some v -> dict_get d k = v.
Proof. unfold dict_get. now intros ->. Qed.

Lemma dict_get_absent (d : dict) (k : string) :
  dict_lookup d k = None -> dict_get d k = PyNone.
Proof. unfold dict_get. now intros ->. Qed.

Lemma is_none_spec (v : value) : is_none v = true <-> v = PyNone.
Proof. destruct v; simpl; split; congruence. Qed.

(** The decorator, check by check. *)
Lemma authorize_unfold (f : view) (body : dict) (w : world) :
  authorize_and_validate_request E f {| get_json := PyDict body |} w =
  if is_none (dict_get body "token") then
    (Raise (EInvalidUsage
              (new_InvalidUsage "token is required" (Some 400) None)), w)
  else if negb (eq_getenv (dict_get body "token") (API_TOKEN E)) then
    (Raise (EInvalidUsage
              (new_InvalidUsage "wrong API token" (Some 403) None)), w)
  else if negb (truthy (dict_get body "weather")) then
    (Raise (EInvalidUsage
              (new_InvalidUsage "weather params must be provided"
                                (Some 400) None)), w)
  else f {| get_json := PyDict body |} w.
Proof.
  unfold authorize_and_validate_request, bind, get, ret, raise. simpl.
  destruct (is_none _); [reflexivity|].
  destruct (negb (eq_getenv _ _)); [reflexivity|].
  destruct (negb (truthy _)); reflexivity.
Qed.

Lemma authorized_checks (body : dict) :
  authorized E body ->
  is_none (dict_get body "token") = false /\
  eq_getenv (dict_get body "token") (API_TOKEN E) = true.
Proof.
  intros [Hsome Heq]. split.
  - destruct (is_none _) eqn:H; [|reflexivity].
    apply is_none_spec in H. contradiction.
  - now apply eq_getenv_spec.
Qed.

Lemma authorize_pass (f : view) (body : dict) (w : world) :
  authorized E body ->
  truthy (dict_get body "weather") = true ->
  authorize_and_validate_request E f {| get_json := PyDict body |} w =
  f {| get_json := PyDict body |} w.
Proof.
  intros Hauth Hw. rewrite authorize_unfold.
  destruct (authorized_checks body Hauth) as [-> ->]. now rewrite Hw.
Qed.

Lemma dispatch_rejected (e : endpoint) (body : dict) (w : world)
    (code : Z) (msg : string) :
  (forall f : view,
      authorize_and_validate_request E f {| get_json := PyDict body |} w =
      (Raise (EInvalidUsage (new_InvalidUsage msg (Some code) None)), w)) ->
  dispatch E e {| get_json := PyDict body |} w = (structured_error code msg, w).
Proof.
  intros H. unfold dispatch.
  destruct e; simpl;
    unfold current_weather_endpoint, weather_forecast_endpoint,
      weather_history_endpoint; now rewrite H.
Qed.

(** C1. On each of the three weather endpoints, a body without [token] gets
    the structured error 400 "token is required"; a body whose token is
    there but is not the configured [API_TOKEN] gets 403 "wrong API token";
    a body with the right token whose [weather] is absent or empty gets 400
    "weather params must be provided".  The cases apply in this order, and
    in each of them the world is left as it was: no provider call is made. *)
Theorem request_checks (e : endpoint) (body : dict) (w : world)
    (code : Z) (msg : string) :
  rejected E body code msg ->
  dispatch E e {| get_json := PyDict body |} w = (structured_error code msg, w).
Proof.
  intros H. apply dispatch_rejected. intros f. rewrite authorize_unfold.
  destruct H as [Hnone | token Hsome Hnn Hne | Hauth Hweather].
  - now rewrite (dict_get_absent _ _ Hnone).
  - rewrite (dict_get_present _ _ _ Hsome).
    destruct (is_none token) eqn:Hn.
    { apply is_none_spec in Hn. contradiction. }
    destruct (eq_getenv token (API_TOKEN E)) eqn:Heq; [|reflexivity].
    apply eq_getenv_spec in Heq. contradiction.
  - destruct (authorized_checks body Hauth) as [-> ->]. simpl.
    destruct Hweather as [Habsent | (wv & Hsome & Hfalsy)].
    + now rewrite (dict_get_absent _ _ Habsent).
    + now rewrite (dict_get_present _ _ _ Hsome), Hfalsy.
Qed.


Lemma dict_lookup_remove (d : dict) (k : string) :
  dict_lookup (dict_remove d k) k = None.
Proof.
  induction d as [|[k' v] d IH]; [reflexivity|].
  unfold dict_remove in *. simpl.
  destruct (String.eqb k' k) eqn:Hk; simpl; [exact IH|].
  now rewrite Hk.
Qed.

(** C9. A body whose [token] is JSON null is answered like a body without
    the field: 400 "token is required", never 403, whatever [API_TOKEN] is
    (set or unset), and without a provider call. *)
Theorem null_token_is_missing_token (e : endpoint) (body : dict) (w : world) :
  dict_lookup body "token" = Some PyNone ->
  dispatch E e {| get_json := PyDict body |} w
    = (structured_error 400 "token is required", w) /\
  dispatch E e {| get_json := PyDict body |} w
    = dispatch E e {| get_json := PyDict (dict_remove body "token") |} w /\
  status (fst (dispatch E e {| get_json := PyDict body |} w)) <> 403.
Proof.
  intros Hnull.
  assert (Hbody : dispatch E e {| get_json := PyDict body |} w
                  = (structured_error 400 "token is required", w)).
  { apply dispatch_rejected. intros f. rewrite authorize_unfold.
    now rewrite (dict_get_present _ _ _ Hnull). }
  assert (Hremoved :
            dispatch E e {| get_json := PyDict (dict_remove body "token") |} w
            = (structured_error 400 "token is required", w)).
  { apply dispatch_rejected. intros f. rewrite authorize_unfold.
    now rewrite (dict_get_absent _ _ (dict_lookup_remove body "token")). }
  rewrite Hremoved, Hbody. repeat split. simpl. lia.
Qed.

(** *** The provider lookups *)

(** What a lookup does, whatever its arguments: one call, appended to the
    calls made so far, and then the decoding of the text that came back. *)
Lemma lookup_runs (l : lookup) :
  exists params : dict,
    let c := {| call_method := "GET";
                call_url := "http://api.weatherapi.com/v1/" +:+ suffix l;
                call_params := params |} in
    (forall w,
        run_lookup E l w =
        (match network E c with
         | None => Raise RequestException
         | Some r =>
             match loads E (reply_text r) with
             | Some v => Return v
             | None => Raise JSONDecodeError
             end
         end,
         {| ticks := ticks w; calls := calls w ++ [c] |})) /\
    params =
    match l with
    | CurrentLookup q lang =>
        let p := [("key", of_getenv (WEATHER_API_KEY E)); ("q", q)] in
        if truthy lang then p ++ [("lang", lang)] else p
    | ForecastLookup q days lang =>
        let p := [("key", of_getenv (WEATHER_API_KEY E)); ("q", q);
                  ("days", days)] in
        if truthy lang then p ++ [("lang", lang)] else p
    | HistoryLookup q dt end_dt lang =>
        let p := [("key", of_getenv (WEATHER_API_KEY E)); ("q", q);
                  ("dt", dt)] in
        let p := if truthy end_dt then p ++ [("end_dt", end_dt)] else p in
        if truthy lang then p ++ [("lang", lang)] else p
    end.
Proof.
  destruct l as [q lang | q days lang | q dt end_dt lang]; simpl.
  - exists (if truthy lang
            then [("key", of_getenv (WEATHER_API_KEY E)); ("q", q);
                  ("lang", lang)]
            else [("key", of_getenv (WEATHER_API_KEY E)); ("q", q)]).
    split; [|now destruct (truthy lang)].
    intros w. unfold get_current_weather, bind, requests_request, json_loads.
    destruct (truthy lang); simpl;
      (destruct (network E _) as [r|]; [|reflexivity]);
      unfold ret, raise; now destruct (loads E (reply_text r)).
  - exists (if truthy lang
            then [("key", of_getenv (WEATHER_API_KEY E)); ("q", q);
                  ("days", days); ("lang", lang)]
            else [("key", of_getenv (WEATHER_API_KEY E)); ("q", q);
                  ("days", days)]).
    split; [|now destruct (truthy lang)].
    intros w. unfold get_weather_forecast, bind, requests_request, json_loads.
    destruct (truthy lang); simpl;
      (destruct (network E _) as [r|]; [|reflexivity]);
      unfold ret, raise; now destruct (loads E (reply_text r)).
  - exists (let p := [("key", of_getenv (WEATHER_API_KEY E)); ("q", q);
                      ("dt", dt)] in
            let p := if truthy end_dt then p ++ [("end_dt", end_dt)] else p in
            if truthy lang then p ++ [("lang", lang)] else p).
    split; [|reflexivity].
    intros w. unfold get_weather_history, bind, requests_request, json_loads.
    destruct (truthy end_dt), (truthy lang); simpl;
      (destruct (network E _) as [r|]; [|reflexivity]);
      unfold ret, raise; now destruct (loads E (reply_text r)).
Qed.

Lemma issued_one {A} (m : M A) (w : world) (c : http_call) (o : outcome A) :
  m w = (o, {| ticks := ticks w; calls := calls w ++ [c] |}) ->
  issued m w = [c].
Proof. unfold issued. intros ->. simpl. apply drop_app_length. Qed.


(** What a request that passes the checks does: the clock is read, the
    lookup runs, and only if it returns is the clock read again. *)
Lemma endpoint_runs_lookup (e : endpoint) (body wp : dict) (w : world) :
  well_formed E body wp ->
  view_of E e {| get_json := PyDict body |} w =
  let w1 := {| ticks := S (ticks w); calls := calls w |} in
  match run_lookup E (lookup_of e wp) w1 with
  | (Return weather, w2) =>
      (Return (timed_body weather (clock E (ticks w)) (clock E (ticks w2))),
       {| ticks := S (ticks w2); calls := calls w2 |})
  | (Raise x, w2) => (Raise x, w2)
  end.
Proof.
  intros (Hauth & Hweather & Hne).
  assert (Htruthy : truthy (dict_get body "weather") = true).
  { rewrite (dict_get_present _ _ _ Hweather). now destruct wp. }
  destruct e; simpl;
    unfold current_weather_endpoint, weather_forecast_endpoint,
      weather_history_endpoint;
    rewrite (authorize_pass _ _ _ Hauth Htruthy);
    unfold add_execution_time_params_to_response, bind, datetime_now, get, ret;
    simpl; rewrite (dict_get_present _ _ _ Hweather); simpl.
  - destruct (get_current_weather E _ _ _) as [[weather|x] w2]; reflexivity.
  - destruct (get_weather_forecast E _ _ _ _) as [[weather|x] w2]; reflexivity.
  - destruct (get_weather_history E _ _ _ _ _) as [[weather|x] w2]; reflexivity.
Qed.

(** The response to a well-formed request, from the reply to its one call. *)
Lemma well_formed_response (e : endpoint) (body wp : dict) (w : world) :
  well_formed E body wp ->
  exists c,
    issued (run_lookup E (lookup_of e wp)) w = [c] /\
    calls (snd (dispatch E e {| get_json := PyDict body |} w))
      = calls w ++ [c] /\
    fst (dispatch E e {| get_json := PyDict body |} w) =
    match network E c with
    | None => internal_server_error
    | Some r =>
        match loads E (reply_text r) with
        | Some v =>
            {| status := 200;
               content := Json (PyDict (timed_body v (clock E (ticks w))
                                          (clock E (S (ticks w))))) |}
        | None => internal_server_error
        end
    end.
Proof.
  intros Hwf.
  destruct (lookup_runs (lookup_of e wp)) as (params & Hrun & _).
  simpl in Hrun. eexists. split; [|split].
  - eapply issued_one. apply Hrun.
  - unfold dispatch. rewrite (endpoint_runs_lookup _ _ _ _ Hwf). simpl.
    rewrite Hrun. destruct (network E _) as [r|]; [|reflexivity].
    destruct (loads E _); reflexivity.
  - unfold dispatch. rewrite (endpoint_runs_lookup _ _ _ _ Hwf). simpl.
    rewrite Hrun. destruct (network E _) as [r|]; [|reflexivity].
    destruct (loads E _); reflexivity.
Qed.

End WeatherProperties.

(** ** The weather proxy service: the provider lookups *)

Section LookupProperties.
Import Py WeatherApp Props.

Variable E : environment.

(** C10. In the one call a lookup makes, [lang] is a query parameter exactly
    when its value is truthy, and so is [end_dt] in the history lookup (the
    other two never send it); an empty string gives the very call that an
    absent parameter ([None]) gives. *)
Theorem optional_params_only_when_truthy (l : lookup) (w : world) :
  (exists c,
      issued (run_lookup E l) w = [c] /\
      dict_lookup (call_params c) "lang"
        = (if truthy (lang_of l) then Some (lang_of l) else None) /\
      dict_lookup (call_params c) "end_dt"
        = match l with
          | HistoryLookup _ _ end_dt _ =>
              if truthy end_dt then Some end_dt else None
          | _ => None
          end) /\
  run_lookup E (with_lang l (PyStr "")) w = run_lookup E (with_lang l PyNone) w /\
  (forall q dt lang,
      get_weather_history E q dt (PyStr "") lang w
      = get_weather_history E q dt PyNone lang w).
Proof.
  split; [|split].
  - destruct (lookup_runs E l) as (params & Hrun & Hparams).
    cbn zeta in Hrun. eexists. split; [eapply issued_one; apply Hrun|].
    cbn [call_params]. subst params.
    destruct l as [q lang | q days lang | q dt end_dt lang]; cbn [lang_of].
    + destruct (truthy lang); split; reflexivity.
    + destruct (truthy lang); split; reflexivity.
    + destruct (truthy end_dt), (truthy lang); split; reflexivity.
  - destruct l; reflexivity.
  - reflexivity.
Qed.

(** C8, amended.  Every lookup issues exactly one call: a GET whose URL is
    the fixed base URL, which has the plain http scheme, followed by
    [current.json], [forecast.json] or [history.json] according to the
    operation, with the configured API key as the query parameter [key]. *)
Theorem lookup_is_one_get (l : lookup) (w : world) :
  exists c,
    issued (run_lookup E l) w = [c] /\
    call_method c = "GET" /\
    call_url c = "http://api.weatherapi.com/v1/" +:+ suffix l /\
    call_url c = url_base_url +:+ "/" +:+ suffix l /\
    dict_lookup (call_params c) "key" = Some (of_getenv (WEATHER_API_KEY E)).
Proof.
  destruct (lookup_runs E l) as (params & Hrun & Hparams).
  cbn zeta in Hrun. eexists. split; [eapply issued_one; apply Hrun|].
  cbn [call_method call_url call_params]. repeat split. subst params.
  destruct l as [q lang | q days lang | q dt end_dt lang].
  - now destruct (truthy lang).
  - now destruct (truthy lang).
  - now destruct (truthy end_dt), (truthy lang).
Qed.

(** C4. A lookup never looks at the provider's status: rewriting every
    status changes nothing.  Whatever text comes back is decoded and the
    decoded value is returned as it is, and the endpoint answers 200 with
    that value under [weather]; if the text is not JSON the lookup raises
    [JSONDecodeError], and the request that made it ends in the framework's
    500 page.  In neither case is the answer a structured error. *)
Theorem provider_reply_passed_through (l : lookup) (w : world) :
  (forall f, run_lookup (with_status f E) l w = run_lookup E l w) /\
  (exists c,
      issued (run_lookup E l) w = [c] /\
      forall r,
        network E c = Some r ->
        fst (run_lookup E l w) =
        match loads E (reply_text r) with
        | Some v => Return v
        | None => Raise JSONDecodeError
        end) /\
  (forall e body wp c r,
      l = lookup_of e wp ->
      well_formed E body wp ->
      issued (run_lookup E l) w = [c] ->
      network E c = Some r ->
      fst (dispatch E e {| get_json := PyDict body |} w) =
      match loads E (reply_text r) with
      | Some v =>
          {| status := 200;
             content := Json (PyDict (timed_body v (clock E (ticks w))
                                        (clock E (S (ticks w))))) |}
      | None => internal_server_error
      end /\
      forall code msg,
        fst (dispatch E e {| get_json := PyDict body |} w)
          <> structured_error code msg).
Proof.
  split; [|split].
  - intros f.
    destruct (lookup_runs E l) as (params & Hrun & Hparams).
    destruct (lookup_runs (with_status f E) l) as (params' & Hrun' & Hparams').
    cbn zeta in Hrun, Hrun'. rewrite Hrun, Hrun'.
    assert (params' = params) as -> by (subst; reflexivity).
    cbn [with_status network loads].
    destruct (network E _) as [r|]; reflexivity.
  - destruct (lookup_runs E l) as (params & Hrun & _).
    cbn zeta in Hrun. eexists. split; [eapply issued_one; apply Hrun|].
    intros r Hr. rewrite Hrun, Hr. reflexivity.
  - intros e body wp c r -> Hwf Hc Hr.
    destruct (well_formed_response E e body wp w Hwf) as (c' & Hc' & _ & ->).
    rewrite Hc in Hc'. injection Hc' as <-. rewrite Hr.
    split; [reflexivity|].
    destruct (loads E (reply_text r)); discriminate.
Qed.

(** C3, amended.  A forecast or history request that passes the checks
    makes one call, and in it [days] and [dt] are the values of the body,
    whatever they are (out of range, malformed or missing); [end_dt] is the
    value of the body when that value is truthy, and is left out otherwise.
    No such request is answered with a structured error. *)
Theorem request_values_forwarded (e : endpoint) (body wp : dict) (w : world) :
  well_formed E body wp ->
  (exists c,
      calls (snd (dispatch E e {| get_json := PyDict body |} w))
        = calls w ++ [c] /\
      match e with
      | Current => True
      | Forecast =>
          dict_lookup (call_params c) "days" = Some (dict_get wp "days")
      | History =>
          dict_lookup (call_params c) "dt" = Some (dict_get wp "dt") /\
          dict_lookup (call_params c) "end_dt"
            = (if truthy (dict_get wp "end_dt")
               then Some (dict_get wp "end_dt") else None)
      end) /\
  forall code msg,
    fst (dispatch E e {| get_json := PyDict body |} w)
      <> structured_error code msg.
Proof.
  intros Hwf.
  destruct (well_formed_response E e body wp w Hwf) as (c & Hc & Hcalls & Hfst).
  split.
  - exists c. split; [exact Hcalls|].
    destruct (lookup_runs E (lookup_of e wp)) as (params & Hrun & Hparams).
    cbn zeta in Hrun. rewrite (issued_one _ _ _ _ (Hrun w)) in Hc.
    injection Hc as <-. cbn [call_params]. subst params.
    destruct e; cbn [lookup_of]; [exact I| |].
    + now destruct (truthy (dict_get wp "lang")).
    + destruct (truthy (dict_get wp "end_dt")),
        (truthy (dict_get wp "lang")); split; reflexivity.
  - intros code msg. rewrite Hfst.
    destruct (network E c) as [r|]; [|discriminate].
    destruct (loads E (reply_text r)); discriminate.
Qed.

(** C2, amended.  The answer to a well-formed current-weather request
    whose provider text decodes to [v]: status 200 and a body with exactly
    the keys [weather], [event_start_datetime], [event_finished_datetime]
    and [event_duration], in which [weather] is [v] itself, the two
    datetimes are the ISO form of the two clock readings and the duration
    prints their difference.  When the second reading is not before the
    first, the finished string is not before the start string. *)
Theorem current_weather_success (body wp : dict) (w : world)
    (c : http_call) (r : http_reply) (v : value) :
  well_formed E body wp ->
  calls (snd (dispatch E Current {| get_json := PyDict body |} w))
    = calls w ++ [c] ->
  network E c = Some r ->
  loads E (reply_text r) = Some v ->
  let start_dt := clock E (ticks w) in
  let end_dt := clock E (S (ticks w)) in
  exists rv start finished,
    fst (dispatch E Current {| get_json := PyDict body |} w)
      = {| status := 200; content := Json (PyDict rv) |} /\
    dict_keys rv = ["weather"; "event_start_datetime";
                    "event_finished_datetime"; "event_duration"] /\
    dict_lookup rv "weather" = Some v /\
    dict_lookup rv "event_start_datetime" = Some (PyStr start) /\
    dict_lookup rv "event_finished_datetime" = Some (PyStr finished) /\
    dict_lookup rv "event_duration"
      = Some (PyStr (DateTime.timedelta_str (DateTime.sub end_dt start_dt))) /\
    start = DateTime.isoformat start_dt /\
    finished = DateTime.isoformat end_dt /\
    (DateTime.valid start_dt -> DateTime.valid end_dt ->
     DateTime.leb start_dt end_dt = true ->
     String.leb start finished = true).
Proof.
  intros Hwf Hcalls Hr Hv start_dt end_dt.
  destruct (well_formed_response E Current body wp w Hwf)
    as (c' & _ & Hcalls' & Hfst).
  rewrite Hcalls in Hcalls'. apply app_inv_head in Hcalls'.
  injection Hcalls' as <-. rewrite Hr, Hv in Hfst.
  eexists _, _, _. split; [exact Hfst|].
  repeat split. apply isoformat_monotone.
Qed.

End LookupProperties.

(** ** The CSV writer and reader: round trip *)

Section CsvRoundTrip.
Import Csv.

Lemma feed_all_app (k : Cursor) (a b : string) :
  feed_all k (a +:+ b) =
  match feed_all k a with
  | Some k' => feed_all k' b
  | None => None
  end.
Proof.
  revert k. induction a as [|c a IH]; intros k; simpl; [reflexivity|].
  destruct (feed k c); [apply IH | reflexivity].
Qed.

Lemma plain_char (c : ascii) :
  needs_quotes c = false ->
  Ascii.eqb c delimiter = false /\ Ascii.eqb c quotechar = false /\
  Ascii.eqb c CR = false /\ Ascii.eqb c LF = false.
Proof.
  unfold needs_quotes. rewrite !orb_false_iff. tauto.
Qed.

(** Inside quotes every character but the quote is kept, line breaks
    included. *)
Lemma feed_in_quotes (c : ascii) b fs l rs :
  Ascii.eqb c quotechar = false ->
  exists l',
    feed (cursor IN_QUOTED_FIELD b fs l rs) c
    = Some (cursor IN_QUOTED_FIELD (b +:+ String c "") fs l' rs).
Proof.
  intros Hq. unfold feed, cursor, end_of_line, parse_process_char.
  destruct l; cbn [line self state rows];
    destruct (Ascii.eqb c LF) eqn:Hlf; cbn [state self rows];
    rewrite ?Hq, ?Hlf; cbn; eauto.
Qed.


(** A doubled quote inside quotes is one quote of the field. *)
Lemma feed_doubled_quote b fs l rs :
  feed_all (cursor IN_QUOTED_FIELD b fs l rs)
           (String quotechar (String quotechar ""))
  = Some (cursor IN_QUOTED_FIELD (b +:+ String quotechar "") fs InLine rs).
Proof. destruct l; reflexivity. Qed.

(** The quoted copy of a field gives the field back. *)
Lemma feed_join_append_data (f : string) b fs l rs :
  exists l',
    feed_all (cursor IN_QUOTED_FIELD b fs l rs) (join_append_data f)
    = Some (cursor IN_QUOTED_FIELD (b +:+ f) fs l' rs).
Proof.
  revert b l. induction f as [|c f IH]; intros b l.
  - exists l. simpl. now rewrite append_nil_r.
  - cbn [join_append_data]. destruct (Ascii.eqb c quotechar) eqn:Hq.
    + apply Ascii.eqb_eq in Hq. subst c.
      change (String quotechar (String quotechar (join_append_data f)))
        with (String quotechar (String quotechar "") +:+ join_append_data f).
      rewrite feed_all_app, feed_doubled_quote.
      destruct (IH (b +:+ String quotechar "") InLine) as [l' ->].
      exists l'. now rewrite append_assoc.
    + cbn [feed_all].
      destruct (feed_in_quotes c b fs l rs Hq) as [l1 ->].
      destruct (IH (b +:+ String c "") l1) as [l' ->].
      exists l'. now rewrite append_assoc.
Qed.

(** Outside quotes a plain character joins the field. *)
Lemma feed_plain (c : ascii) s b fs l rs :
  needs_quotes c = false ->
  s <> IN_QUOTED_FIELD -> s <> EAT_CRNL -> l <> AfterCR ->
  feed (cursor s b fs l rs) c
  = Some (cursor IN_FIELD (b +:+ String c "") fs InLine rs).
Proof.
  intros Hc Hs1 Hs2 Hl. destruct (plain_char c Hc) as (Hd & Hq & Hcr & Hlf).
  unfold feed, cursor, parse_process_char, is_newline.
  destruct l; [| |contradiction];
    destruct s; try contradiction;
    cbn [line self state rows goto]; rewrite ?Hd, ?Hq, ?Hcr, ?Hlf;
    reflexivity.
Qed.

Lemma feed_all_plain (f : string) b fs rs :
  any needs_quotes f = false ->
  feed_all (cursor IN_FIELD b fs InLine rs) f
  = Some (cursor IN_FIELD (b +:+ f) fs InLine rs).
Proof.
  revert b. induction f as [|c f IH]; intros b Hf.
  - simpl. now rewrite append_nil_r.
  - cbn [any] in Hf. apply orb_false_iff in Hf as [Hc Hf].
    cbn [feed_all]. rewrite feed_plain by (assumption || discriminate).
    rewrite IH by assumption. now rewrite append_assoc.
Qed.

Lemma feed_join_append (f : string) s fs l rs :
  s = START_RECORD \/ s = START_FIELD -> l <> AfterCR ->
  exists l',
    l' <> AfterCR /\
    feed_all (cursor s "" fs l rs) (join_append f)
    = Some (cursor (after_field s f) f fs l' rs).
Proof.
  intros Hs Hl. unfold join_append, after_field.
  destruct (any needs_quotes f) eqn:Hf.
  - cbn [feed_all].
    assert (Hopen : feed (cursor s "" fs l rs) quotechar
                    = Some (cursor IN_QUOTED_FIELD "" fs InLine rs)).
    { destruct Hs as [-> | ->]; destruct l; try contradiction; reflexivity. }
    rewrite Hopen, feed_all_app.
    destruct (feed_join_append_data f "" fs InLine rs) as [l1 ->].
    exists InLine. split; [discriminate|].
    destruct l1; reflexivity.
  - destruct f as [|c f].
    + exists l. split; [assumption | reflexivity].
    + exists InLine. split; [discriminate|].
      cbn [any] in Hf. apply orb_false_iff in Hf as [Hc Hf].
      cbn [feed_all].
      rewrite feed_plain
        by (assumption || (destruct Hs as [-> | ->]; discriminate)).
      now rewrite feed_all_plain.
Qed.


Lemma after_field_cases (s : ParserState) (f : string) :
  s = START_RECORD \/ s = START_FIELD ->
  after_field s f = QUOTE_IN_QUOTED_FIELD \/ after_field s f = IN_FIELD \/
  (after_field s f = s /\ f = "").
Proof.
  intros Hs. unfold after_field. destruct (any needs_quotes f); [tauto|].
  destruct f; tauto.
Qed.

(** The delimiter closes the field. *)
Lemma feed_delimiter s f fs l rs :
  s = START_RECORD /\ f = "" \/ s = START_FIELD \/ s = IN_FIELD
  \/ s = QUOTE_IN_QUOTED_FIELD ->
  l <> AfterCR ->
  feed (cursor s f fs l rs) delimiter
  = Some (cursor START_FIELD "" (fs ++ [f]) InLine rs).
Proof.
  intros Hs Hl.
  destruct l; [| |contradiction];
    destruct Hs as [[-> ->] | [-> | [-> | ->]]]; reflexivity.
Qed.

(** The line terminator closes the field and the record. *)
Lemma feed_lineterminator s f fs l rs :
  s = START_FIELD \/ s = IN_FIELD \/ s = QUOTE_IN_QUOTED_FIELD ->
  l <> AfterCR ->
  feed_all (cursor s f fs l rs) lineterminator
  = Some (cursor START_RECORD "" [] LineStart (rs ++ [fs ++ [f]])).
Proof.
  intros Hs Hl.
  destruct l; [| |contradiction];
    destruct Hs as [-> | [-> | ->]]; reflexivity.
Qed.

(** The fields of a row, from the second one on or from the first one of a
    row that is not a lone empty field. *)
Lemma feed_join (rest : list string) (f : string) s fs l rs :
  s = START_FIELD \/ (s = START_RECORD /\ (f <> "" \/ rest <> [])) ->
  l <> AfterCR ->
  feed_all (cursor s "" fs l rs) (join (f :: rest) +:+ lineterminator)
  = Some (cursor START_RECORD "" [] LineStart (rs ++ [fs ++ f :: rest])).
Proof.
  revert f s fs l. induction rest as [|g rest IH]; intros f s fs l Hs Hl.
  - cbn [join]. rewrite feed_all_app.
    destruct (feed_join_append f s fs l rs) as (l' & Hl' & ->);
      [tauto | assumption |].
    apply feed_lineterminator; [|assumption].
    destruct (after_field_cases s f) as [H | [H | [H ->]]]; [tauto| | |];
      rewrite H; try tauto.
    all: destruct Hs as [-> | [_ [Hf | Hrest]]]; [tauto | |]; contradiction.
  - change (join (f :: g :: rest))
      with (join_append f +:+ String delimiter (join (g :: rest))).
    rewrite append_assoc, feed_all_app.
    destruct (feed_join_append f s fs l rs) as (l' & Hl' & ->);
      [tauto | assumption |].
    change (String delimiter (join (g :: rest)) +:+ lineterminator)
      with (String delimiter (join (g :: rest) +:+ lineterminator)).
    cbn [feed_all]. rewrite feed_delimiter; [|
      destruct (after_field_cases s f) as [H | [H | [H ->]]];
        [tauto| | |]; rewrite H; tauto | assumption].
    rewrite IH by (tauto || discriminate).
    now rewrite <- app_assoc.
Qed.

(** One written row is read back as that row, and the reader is again at
    the start of a record and of a line. *)
Lemma feed_writerow (row : list string) rs :
  feed_all (cursor START_RECORD "" [] LineStart rs) (writerow row)
  = Some (cursor START_RECORD "" [] LineStart (rs ++ [row])).
Proof.
  destruct row as [|f rest]; [reflexivity|].
  destruct rest as [|g rest].
  - destruct f as [|c f]; [reflexivity|].
    change (writerow [String c f])
      with (join [String c f] +:+ lineterminator).
    apply feed_join; [|discriminate]. right. split; [reflexivity|].
    left. discriminate.
  - assert (Hrow : writerow (f :: g :: rest)
                   = join (f :: g :: rest) +:+ lineterminator)
      by (destruct f; reflexivity).
    rewrite Hrow. apply feed_join; [|discriminate].
    right. split; [reflexivity|]. right. discriminate.
Qed.

Lemma feed_writerows (rows_written : list (list string)) rs :
  feed_all (cursor START_RECORD "" [] LineStart rs) (writerows rows_written)
  = Some (cursor START_RECORD "" [] LineStart (rs ++ rows_written)).
Proof.
  revert rs. induction rows_written as [|row rest IH]; intros rs.
  - simpl. now rewrite app_nil_r.
  - cbn [writerows]. rewrite feed_all_app, feed_writerow, IH.
    now rewrite <- app_assoc.
Qed.

(** What the writer wrote, the reader reads. *)
Lemma reader_writerows (rows_written : list (list string)) :
  reader (writerows rows_written) = Some rows_written.
Proof.
  unfold reader. change start with (cursor START_RECORD "" [] LineStart []).
  now rewrite feed_writerows.
Qed.

End CsvRoundTrip.

(** ** The dataset builder: reading the tree *)

Section ReadingTheTree.
Import Dataset Corpus.

(** Induction on a tree, with the hypothesis for every entry of a
    directory. *)
Lemma node_induction (P : node -> Prop) :
  (forall data, P (File data)) ->
  (forall entries, Forall (fun e => P (snd e)) entries -> P (Dir entries)) ->
  forall x, P x.
Proof.
  intros HFile HDir. fix IH 1. intros [data | entries].
  - apply HFile.
  - apply HDir. induction entries as [|e entries IHentries].
    + constructor.
    + constructor; [apply IH | exact IHentries].
Qed.

Lemma resolve_app (fs : node) (p q : path) :
  resolve fs (p ++ q) =
  match resolve fs p with
  | Some x => resolve x q
  | None => None
  end.
Proof.
  revert fs. induction p as [|name p IH]; intros fs; [reflexivity|].
  simpl. destruct fs as [|entries]; [reflexivity|].
  destruct (lookup_entry entries name); [apply IH | reflexivity].
Qed.

Lemma names_unique_absent (entries : list (string * node)) name x :
  existsb (String.eqb name) (map fst entries) = false ->
  ~ In (name, x) entries.
Proof.
  induction entries as [|[n y] entries IH]; simpl; [tauto|].
  rewrite orb_false_iff. intros [Hn Hrest] [Heq | Hin].
  - injection Heq as -> ->. now rewrite String.eqb_refl in Hn.
  - now apply IH.
Qed.

(** In a directory with unique names, a name leads to its entry. *)
Lemma lookup_unique (entries : list (string * node)) name x :
  names_unique (map fst entries) = true ->
  In (name, x) entries ->
  lookup_entry entries name = Some x.
Proof.
  induction entries as [|[n y] entries IH]; simpl; [tauto|].
  rewrite andb_true_iff, negb_true_iff. intros [Hn Hrest] [Heq | Hin].
  - injection Heq as -> ->. now rewrite String.eqb_refl.
  - destruct (String.eqb_spec n name) as [-> | _]; [|now apply IH].
    now apply names_unique_absent with (x := x) in Hn.
Qed.

Lemma resolve_entry (fs : node) (top : path) entries name x :
  resolve fs top = Some (Dir entries) ->
  names_unique (map fst entries) = true ->
  In (name, x) entries ->
  resolve fs (top ++ [name]) = Some x.
Proof.
  intros Htop Hunique Hin. rewrite resolve_app, Htop. simpl.
  now rewrite (lookup_unique _ _ _ Hunique Hin).
Qed.

(** Reading with universal newlines and then replacing LF: every line
    break has become one space. *)
Lemma flattened (s : string) :
  re_sub_newline_space (universal_newlines s) = line_breaks_to_spaces s.
Proof.
  assert (H : forall n s, (String.length s <= n)%nat ->
              re_sub_newline_space (universal_newlines s)
              = line_breaks_to_spaces s).
  { clear s. induction n as [|n IH]; intros [|c s] Hlen; simpl in Hlen;
      try reflexivity; try lia.
    cbn [universal_newlines line_breaks_to_spaces].
    destruct (Ascii.eqb c Csv.CR) eqn:Hcr.
    - destruct s as [|c' s]; [reflexivity|].
      destruct (Ascii.eqb c' Csv.LF) eqn:Hlf;
        cbn [re_sub_newline_space]; change (Ascii.eqb Csv.LF Csv.LF) with true;
        cbv iota; f_equal; apply IH; simpl in *; lia.
    - cbn [re_sub_newline_space].
      destruct (Ascii.eqb c Csv.LF); f_equal; apply IH; lia. }
  now apply (H (String.length s)).
Qed.

(** No line break is left in the text of a record. *)
Lemma flattened_has_no_newline (s : string) :
  Csv.any Csv.is_newline (line_breaks_to_spaces s) = false.
Proof.
  assert (H : forall n s, (String.length s <= n)%nat ->
              Csv.any Csv.is_newline (line_breaks_to_spaces s) = false).
  { clear s. induction n as [|n IH]; intros [|c s] Hlen; simpl in Hlen;
      try reflexivity; try lia.
    cbn [line_breaks_to_spaces].
    destruct (Ascii.eqb c Csv.CR) eqn:Hcr.
    - destruct s as [|c' s]; [reflexivity|].
      destruct (Ascii.eqb c' Csv.LF);
        cbn [Csv.any]; change (Csv.is_newline " ") with false;
        cbn [orb]; apply IH; simpl in *; lia.
    - destruct (Ascii.eqb c Csv.LF) eqn:Hlf; cbn [Csv.any].
      + change (Csv.is_newline " ") with false. cbn [orb]. apply IH. lia.
      + unfold Csv.is_newline at 1. rewrite Hcr, Hlf. cbn [orb].
        apply IH. lia. }
  now apply (H (String.length s)).
Qed.

(** In a text without carriage returns, that is the replacement of every
    LF, character by character. *)
Lemma line_breaks_without_cr (s : string) :
  Csv.any (fun c => Ascii.eqb c Csv.CR) s = false ->
  line_breaks_to_spaces s = re_sub_newline_space s.
Proof.
  induction s as [|c s IH]; [reflexivity|].
  cbn [Csv.any]. rewrite orb_false_iff. intros [Hc Hs].
  cbn [line_breaks_to_spaces re_sub_newline_space]. rewrite Hc.
  destruct (Ascii.eqb c Csv.LF); now rewrite IH.
Qed.

Lemma basename_last (top : path) (name : string) :
  basename (top ++ [name]) = name.
Proof. unfold basename. apply last_last. Qed.

Lemma records_of_app (a b : list (path * option string)) :
  records_of (a ++ b) =
  match records_of a with
  | Some ra =>
      match records_of b with
      | Some rb => Some (ra ++ rb)
      | None => None
      end
  | None => None
  end.
Proof.
  induction a as [|f a IH]; simpl.
  - now destruct (records_of b).
  - destruct (record_of f); [|reflexivity]. rewrite IH.
    destruct (records_of a); [|reflexivity].
    now destruct (records_of b).
Qed.

Lemma read_dirs_app fs (a b : list (path * list string * list string)) acc :
  read_dirs fs (a ++ b) acc =
  match read_dirs fs a acc with
  | Some acc' => read_dirs fs b acc'
  | None => None
  end.
Proof.
  revert acc. induction a as [|[[subdir dirs] files] a IH]; intros acc;
    simpl; [reflexivity|].
  destruct (read_files fs subdir files acc); [apply IH | reflexivity].
Qed.

(** The inner loop reads the files of one directory. *)
Lemma read_files_direct fs top all entries acc :
  resolve fs top = Some (Dir all) ->
  names_unique (map fst all) = true ->
  incl entries all ->
  read_files fs top (filenames entries) acc =
  match records_of (direct_files top entries) with
  | Some rs => Some (acc ++ rs)
  | None => None
  end.
Proof.
  intros Htop Hunique. revert acc.
  induction entries as [|[name x] entries IH]; intros acc Hincl.
  - simpl. now rewrite app_nil_r.
  - assert (Hin : In (name, x) all) by (apply Hincl; now left).
    assert (Hrest : incl entries all)
      by (intros e He; apply Hincl; now right).
    destruct x as [data | sub].
    + unfold filenames, direct_files. cbn [List.filter snd is_dir negb map
        flat_map fst app]. fold (filenames entries).
      fold (direct_files top entries).
      cbn [read_files]. unfold read_text.
      rewrite (resolve_entry fs top all name (File data) Htop Hunique Hin).
      cbn [records_of]. unfold record_of at 1. cbn [snd fst].
      destruct data as [data|]; [|reflexivity].
      rewrite IH by assumption. rewrite basename_last, flattened.
      destruct (records_of (direct_files top entries)); [|reflexivity].
      now rewrite <- app_assoc.
    + unfold filenames, direct_files. cbn [List.filter snd is_dir negb map
        flat_map fst app]. fold (filenames entries).
      fold (direct_files top entries). now apply IH.
Qed.

(** The outer loop reads the files of the whole tree. *)
Lemma read_walk fs (x : node) :
  forall top acc,
    wf x = true ->
    resolve fs top = Some x ->
    read_dirs fs (walk top x) acc =
    match records_of (files_of top x) with
    | Some rs => Some (acc ++ rs)
    | None => None
    end.
Proof.
  induction x as [data | all IH] using node_induction; intros top acc Hwf Htop.
  - simpl. now rewrite app_nil_r.
  - cbn [wf] in Hwf. apply andb_true_iff in Hwf as [Hunique Hwf].
    cbn [walk files_of read_dirs].
    rewrite (read_files_direct fs top all all acc Htop Hunique)
      by apply incl_refl.
    rewrite records_of_app.
    destruct (records_of (direct_files top all)) as [direct|]; [|reflexivity].
    assert (Hsub : forall entries acc,
               incl entries all ->
               read_dirs fs
                 (flat_map (fun e => if is_dir (snd e)
                                     then walk (top ++ [fst e]) (snd e)
                                     else []) entries) acc =
               match records_of
                       (flat_map (fun e => files_of (top ++ [fst e]) (snd e))
                                 entries) with
               | Some rs => Some (acc ++ rs)
               | None => None
               end).
    { induction entries as [|[name y] entries IHentries]; intros acc' Hincl.
      - simpl. now rewrite app_nil_r.
      - assert (Hin : In (name, y) all) by (apply Hincl; now left).
        assert (Hrest : incl entries all)
          by (intros e He; apply Hincl; now right).
        cbn [flat_map fst snd]. rewrite read_dirs_app, records_of_app.
        assert (Hy : read_dirs fs
                       (if is_dir y then walk (top ++ [name]) y else []) acc'
                     = match records_of (files_of (top ++ [name]) y) with
                       | Some rs => Some (acc' ++ rs)
                       | None => None
                       end).
        { destruct y as [data | sub]; [simpl; now rewrite app_nil_r|].
          cbn [is_dir].
          rewrite List.Forall_forall in IH.
          apply (IH (name, Dir sub) Hin).
          - rewrite forallb_forall in Hwf. apply (Hwf (name, Dir sub) Hin).
          - now apply (resolve_entry fs top all). }
        rewrite Hy.
        destruct (records_of (files_of (top ++ [name]) y)); [|reflexivity].
        rewrite IHentries by assumption.
        destruct (records_of (flat_map _ entries)); [|reflexivity].
        now rewrite <- app_assoc. }
    rewrite Hsub by apply incl_refl.
    destruct (records_of (flat_map _ all)); [|reflexivity].
    now rewrite <- app_assoc.
Qed.

Lemma records_of_each (files : list (path * option string)) recs :
  records_of files = Some recs ->
  Forall2 (fun f r =>
             exists data,
               snd f = Some data /\
               r = (fst (splitext (basename (fst f))),
                    line_breaks_to_spaces data)) files recs.
Proof.
  revert recs. induction files as [|f files IH]; intros recs; simpl.
  - intros [= <-]. constructor.
  - unfold record_of at 1. destruct (snd f) as [data|] eqn:Hdata; [|discriminate].
    destruct (records_of files) as [rs|]; [|discriminate].
    intros [= <-]. constructor; [now exists data | now apply IH].
Qed.

End ReadingTheTree.

(** ** The files of a tree *)

Section FilesOfATree.
Import Dataset Corpus.

Lemma lookup_entry_In (entries : list (string * node)) name x :
  lookup_entry entries name = Some x -> In (name, x) entries.
Proof.
  induction entries as [|[n y] entries IH]; simpl; [discriminate|].
  destruct (String.eqb_spec n name) as [-> | _].
  - intros [= ->]. now left.
  - intros H. right. now apply IH.
Qed.

Lemma in_direct_files (top : path) entries p data :
  In (p, data) (direct_files top entries) <->
  exists name, In (name, File data) entries /\ p = top ++ [name].
Proof.
  unfold direct_files. rewrite in_flat_map. split.
  - intros ([name [d | sub]] & Hin & Hp); cbn [snd fst] in Hp;
      [|contradiction].
    destruct Hp as [[= <- <-] | []]. now exists name.
  - intros (name & Hin & ->). exists (name, File data).
    split; [assumption | now left].
Qed.

(** Every path of [files_of] goes below the top. *)
Lemma files_of_below (x : node) :
  forall top p data,
    In (p, data) (files_of top x) -> exists rel, rel <> [] /\ p = top ++ rel.
Proof.
  induction x as [d | all IH] using node_induction; intros top p data;
    [contradiction|].
  cbn [files_of]. rewrite in_app_iff, in_direct_files, in_flat_map.
  intros [(name & _ & ->) | ([name y] & Hin & Hp)].
  - now exists [name].
  - cbn [fst snd] in Hp. rewrite List.Forall_forall in IH.
    destruct (IH _ Hin _ _ _ Hp) as (rel & _ & ->).
    exists (name :: rel). split; [discriminate|].
    now rewrite <- app_assoc.
Qed.

(** [files_of] lists the files of the tree: a path is listed with some
    content exactly when it leads to a file with that content. *)
Lemma files_of_resolve (x : node) :
  wf x = true ->
  forall top rel data,
    In (top ++ rel, data) (files_of top x) <->
    rel <> [] /\ resolve x rel = Some (File data).
Proof.
  induction x as [d | all IH] using node_induction; intros Hwf top rel data.
  - split; [contradiction|]. intros [Hrel H]. destruct rel; [easy|discriminate].
  - cbn [wf] in Hwf. apply andb_true_iff in Hwf as [Hunique Hwf].
    rewrite List.Forall_forall in IH. rewrite forallb_forall in Hwf.
    cbn [files_of]. rewrite in_app_iff, in_direct_files, in_flat_map. split.
    + intros [(name & Hin & Hp) | ([name y] & Hin & Hp)].
      * apply app_inv_head in Hp. subst rel. split; [discriminate|].
        cbn [resolve]. now rewrite (lookup_unique _ _ _ Hunique Hin).
      * cbn [fst snd] in Hp.
        destruct (files_of_below y _ _ _ Hp) as (rel' & Hrel' & Heq).
        rewrite <- app_assoc in Heq. apply app_inv_head in Heq. subst rel.
        split; [discriminate|].
        cbn [resolve app]. rewrite (lookup_unique _ _ _ Hunique Hin).
        change (top ++ name :: rel') with (top ++ [name] ++ rel') in Hp.
        rewrite app_assoc in Hp.
        now apply (IH _ Hin (Hwf _ Hin) (top ++ [name]) rel' data).
    + intros [Hrel Hres]. destruct rel as [|name rel]; [easy|].
      cbn [resolve] in Hres.
      destruct (lookup_entry all name) as [y|] eqn:Hy; [|discriminate].
      apply lookup_entry_In in Hy.
      destruct rel as [|name' rel].
      * cbn [resolve] in Hres. injection Hres as ->. left. now exists name.
      * right. exists (name, y). split; [assumption|]. cbn [fst snd].
        change (top ++ name :: name' :: rel)
          with (top ++ [name] ++ name' :: rel).
        rewrite app_assoc.
        apply (IH _ Hy (Hwf _ Hy) (top ++ [name]) (name' :: rel) data).
        split; [discriminate | assumption].
Qed.

Lemma direct_files_nodup (top : path) entries :
  names_unique (map fst entries) = true ->
  List.NoDup (map fst (direct_files top entries)).
Proof.
  induction entries as [|[name x] entries IH]; [constructor|].
  cbn [map fst names_unique]. rewrite andb_true_iff, negb_true_iff.
  intros [Hname Hrest]. unfold direct_files. cbn [flat_map snd fst].
  fold (direct_files top entries).
  destruct x as [data | sub]; [|now apply IH].
  cbn [app map fst]. constructor; [|now apply IH].
  rewrite in_map_iff. intros ([p d] & Hp & Hin). cbn [fst] in Hp. subst p.
  apply in_direct_files in Hin as (name' & Hin & Heq).
  apply app_inv_head in Heq. injection Heq as <-.
  eapply names_unique_absent; eassumption.
Qed.

(** The files below different entries of a directory have different
    paths. *)
Lemma nested_files_nodup (top : path) (entries : list (string * node)) :
  (forall e, In e entries ->
             forall top', List.NoDup (map fst (files_of top' (snd e)))) ->
  names_unique (map fst entries) = true ->
  List.NoDup
    (map fst (flat_map (fun e => files_of (top ++ [fst e]) (snd e)) entries)).
Proof.
  induction entries as [|[name x] entries IH]; intros Heach; [constructor|].
  cbn [map fst names_unique]. rewrite andb_true_iff, negb_true_iff.
  intros [Hname Hrest]. cbn [flat_map fst snd]. rewrite map_app.
  apply List.NoDup_app.
  - apply (Heach (name, x)). now left.
  - apply IH; [|assumption]. intros e He. apply Heach. now right.
  - intros p Hp Hp'.
    apply in_map_iff in Hp as ([p1 d1] & Heq1 & Hin1). cbn [fst] in Heq1.
    apply in_map_iff in Hp' as ([p2 d2] & Heq2 & Hin2). cbn [fst] in Heq2.
    subst p1 p2.
    apply files_of_below in Hin1 as (rel1 & _ & Hp1).
    apply in_flat_map in Hin2 as ([name' y] & Hin' & Hin2).
    cbn [fst snd] in Hin2.
    apply files_of_below in Hin2 as (rel2 & _ & Hp2).
    rewrite Hp1, <- !app_assoc in Hp2. apply app_inv_head in Hp2.
    injection Hp2 as -> _.
    eapply names_unique_absent; eassumption.
Qed.

(** No path is listed twice. *)
Lemma files_of_nodup (x : node) :
  wf x = true -> forall top, List.NoDup (map fst (files_of top x)).
Proof.
  induction x as [d | all IH] using node_induction; intros Hwf top;
    [constructor|].
  cbn [wf] in Hwf. apply andb_true_iff in Hwf as [Hunique Hwf].
  rewrite List.Forall_forall in IH. rewrite forallb_forall in Hwf.
  cbn [files_of]. rewrite map_app. apply List.NoDup_app.
  - now apply direct_files_nodup.
  - apply (nested_files_nodup top all); [|assumption].
    intros e He. apply (IH e He). now apply Hwf.
  - intros p Hp Hp'.
    apply in_map_iff in Hp as ([p1 d1] & Heq1 & Hin1). cbn [fst] in Heq1.
    apply in_map_iff in Hp' as ([p2 d2] & Heq2 & Hin2). cbn [fst] in Heq2.
    subst p1 p2.
    apply in_direct_files in Hin1 as (name & _ & Hp1).
    apply in_flat_map in Hin2 as ([name' y] & _ & Hin2).
    cbn [fst snd] in Hin2.
    apply files_of_below in Hin2 as (rel & Hrel & Hp2).
    rewrite Hp1, <- app_assoc in Hp2. apply app_inv_head in Hp2.
    injection Hp2 as _ Hnil. now destruct rel.
Qed.

End FilesOfATree.

(** ** [os.path.splitext]: what the model splits off *)

Section Splitext.
Import Dataset.

Lemma substring_prefix (a b : string) :
  String.substring 0 (String.length a) (a +:+ b) = a.
Proof.
  induction a as [|c a IH]; simpl.
  - now destruct b.
  - now rewrite IH.
Qed.

Lemma substring_all (b : string) :
  String.substring 0 (String.length b) b = b.
Proof. induction b as [|c b IH]; simpl; [reflexivity | now rewrite IH]. Qed.

Lemma substring_suffix (a b : string) :
  String.substring (String.length a) (String.length b) (a +:+ b) = b.
Proof.
  induction a as [|c a IH]; simpl; [apply substring_all | exact IH].
Qed.

(** The last dot cuts the name in two, and no dot follows it. *)
Lemma rfind_dot_spec (p : string) :
  match rfind_dot p with
  | Some i =>
      exists a e,
        p = a +:+ String "." e /\ String.length a = i /\
        Csv.any is_dot e = false
  | None => Csv.any is_dot p = false
  end.
Proof.
  induction p as [|c p IH]; [reflexivity|].
  cbn [rfind_dot]. destruct (rfind_dot p) as [i|].
  - destruct IH as (a & e & -> & <- & He).
    exists (String c a), e. now repeat split.
  - destruct (is_dot c) eqn:Hc.
    + unfold is_dot in Hc. apply Ascii.eqb_eq in Hc. subst c.
      exists "", p. now repeat split.
    + cbn [Csv.any]. now rewrite Hc.
Qed.

(** The two parts make up the name again, and the extension is empty or
    is a dot followed by characters that are not dots. *)
Lemma splitext_spec (p : string) :
  fst (splitext p) +:+ snd (splitext p) = p /\
  (snd (splitext p) = "" \/
   exists e, snd (splitext p) = String "." e /\ Csv.any is_dot e = false).
Proof.
  unfold splitext. pose proof (rfind_dot_spec p) as Hdot.
  destruct (rfind_dot p) as [i|]; [|cbn [fst snd]; rewrite append_nil_r; tauto].
  destruct (all_dots i p); [cbn [fst snd]; rewrite append_nil_r; tauto|].
  destruct Hdot as (a & e & -> & <- & He). cbn [fst snd].
  rewrite length_append.
  replace (String.length a + String.length (String "." e) - String.length a)%nat
    with (String.length (String "." e)) by lia.
  rewrite substring_prefix, substring_suffix. split; [reflexivity|].
  right. now exists e.
Qed.

End Splitext.
(** ** What can be encoded *)

Section Encoding.
Import Utf8 Dataset Further.

Lemma run_append (st : state) (a b : string) :
  run st (a +:+ b)
  = match run st a with
    | Some st' => run st' b
    | None => None
    end.
Proof.
  revert st. induction a as [|c a IH]; intros st; [reflexivity|].
  cbn [String.append run]. destruct (step st c); [apply IH | reflexivity].
Qed.

(** The characters the writer adds are ASCII: the decoder takes them
    between two characters and nowhere else. *)
Lemma step_added (c : ascii) (st : state) :
  In c [Csv.delimiter; Csv.quotechar; Csv.CR; Csv.LF] ->
  step st c = match st with Start => Some Start | _ => None end.
Proof.
  intros [<- | [<- | [<- | [<- | []]]]]; destruct st; reflexivity.
Qed.

Lemma run_added (c : ascii) (s rest : string) :
  In c [Csv.delimiter; Csv.quotechar; Csv.CR; Csv.LF] ->
  run Start (s +:+ String c rest)
  = if valid s then run Start rest else None.
Proof.
  intros Hc. rewrite run_append. unfold valid.
  destruct (run Start s) as [st|]; [|reflexivity].
  cbn [run]. rewrite (step_added c st Hc). now destruct st.
Qed.

Lemma run_join_append_data (st : state) (f : string) :
  run st (Csv.join_append_data f) = run st f.
Proof.
  revert st. induction f as [|c f IH]; intros st; [reflexivity|].
  cbn [Csv.join_append_data].
  destruct (Ascii.eqb_spec c Csv.quotechar) as [-> | _].
  - cbn [run].
    rewrite (step_added Csv.quotechar st) by (right; now left).
    destruct st; try reflexivity.
    rewrite (step_added Csv.quotechar Start) by (right; now left).
    apply IH.
  - cbn [run]. destruct (step st c); [apply IH | reflexivity].
Qed.

Lemma run_join_append (c : ascii) (f rest : string) :
  In c [Csv.delimiter; Csv.quotechar; Csv.CR; Csv.LF] ->
  run Start (Csv.join_append f +:+ String c rest)
  = if valid f then run Start rest else None.
Proof.
  intros Hc. unfold Csv.join_append.
  destruct (Csv.any Csv.needs_quotes f); [|now apply run_added].
  cbn [String.append run].
  rewrite (step_added Csv.quotechar Start) by (right; now left).
  rewrite append_assoc. cbn [String.append].
  rewrite run_added by (right; now left).
  unfold valid. rewrite run_join_append_data.
  destruct (run Start f) as [[]|]; try reflexivity.
  cbn [run]. now rewrite (step_added c Start Hc).
Qed.

Lemma run_writerows (key_value_list : list (string * string)) :
  run Start (Csv.writerows (map as_row key_value_list))
  = if encodable key_value_list then Some Start else None.
Proof.
  induction key_value_list as [|[name text] rest IH]; [reflexivity|].
  cbn [map Csv.writerows encodable forallb fst snd].
  change (as_row (name, text)) with [name; text].
  assert (Hrow : Csv.writerow [name; text]
                 = (Csv.join_append name
                    +:+ String Csv.delimiter (Csv.join_append text))
                   +:+ Csv.lineterminator)
    by (destruct name; reflexivity).
  rewrite Hrow, !append_assoc. cbn [String.append].
  rewrite run_join_append by now left.
  destruct (valid name); [|reflexivity].
  unfold Csv.lineterminator. cbn [String.append].
  rewrite run_join_append by (right; right; now left).
  destruct (valid text); [|reflexivity].
  cbn [run andb].
  rewrite (step_added Csv.LF Start) by (right; right; right; now left).
  exact IH.
Qed.

(** The text of the file can be encoded exactly when every name and every
    text of the records can. *)
Lemma valid_csv_text (key_value_list : list (string * string)) :
  valid (csv_text key_value_list) = encodable key_value_list.
Proof.
  unfold valid, csv_text. rewrite run_append.
  assert (Hheader : run Start (Csv.writerow ["Date"; "Text"]) = Some Start)
    by reflexivity.
  rewrite Hheader, run_writerows. now destruct (encodable key_value_list).
Qed.

End Encoding.

(** ** The dataset builder: properties *)

Section DatasetProperties.
Import Dataset Corpus.

(** What [read_data_from_files] returns, for a tree with unique names. *)
Lemma read_data_records (fs : node) (root : string) (tree : node) :
  resolve fs [root] = Some tree ->
  wf tree = true ->
  read_data_from_files fs root = records_of (files_of [root] tree).
Proof.
  intros Hroot Hwf. unfold read_data_from_files, os_walk. rewrite Hroot.
  rewrite (read_walk fs tree [root] [] Hwf Hroot).
  now destruct (records_of (files_of [root] tree)).
Qed.

Lemma records_of_length (files : list (path * option string)) recs :
  records_of files = Some recs -> length recs = length files.
Proof.
  intros H. apply records_of_each in H. symmetry.
  eapply Forall2_length. exact H.
Qed.

(** C5. The files of the input tree are the paths below the root that
    lead to a file, each listed once.  [read_data_from_files] gives exactly
    one record for each of them, in the order of the walk: its name is the
    file's base name without the extension, its text is the file's content
    with every line break replaced by one space.  Files with the same base
    name in different directories are different files of the tree, and
    each gives its record.  The run fails as a whole as soon as one file
    cannot be read. *)
Theorem files_become_records (fs : node) (root : string) (tree : node) :
  resolve fs [root] = Some tree ->
  wf tree = true ->
  let files := files_of [root] tree in
  (forall rel data,
      In (root :: rel, data) files <->
      rel <> [] /\ resolve tree rel = Some (File data)) /\
  List.NoDup (map fst files) /\
  read_data_from_files fs root = records_of files /\
  forall recs,
    read_data_from_files fs root = Some recs ->
    length recs = length files /\
    Forall2 (fun f r =>
               exists data,
                 snd f = Some data /\
                 r = (fst (splitext (basename (fst f))),
                      line_breaks_to_spaces data))
            files recs.
Proof.
  intros Hroot Hwf files.
  pose proof (read_data_records fs root tree Hroot Hwf) as Hread.
  split; [|split; [|split]].
  - intros rel data. apply (files_of_resolve tree Hwf [root] rel data).
  - now apply files_of_nodup.
  - exact Hread.
  - intros recs Hrecs. rewrite Hread in Hrecs. split.
    + now apply records_of_length.
    + now apply records_of_each.
Qed.

Lemma lookup_set_entry (entries : list (string * node)) name x :
  lookup_entry (set_entry entries name x) name = Some x.
Proof.
  induction entries as [|[n y] entries IH]; simpl.
  - now rewrite String.eqb_refl.
  - destruct (String.eqb n name) eqn:Hn; simpl; now rewrite Hn.
Qed.

Lemma lookup_set_entry_other (entries : list (string * node)) name x other :
  other <> name ->
  lookup_entry (set_entry entries name x) other = lookup_entry entries other.
Proof.
  intros Hne. induction entries as [|[n y] entries IH]; simpl.
  - destruct (String.eqb_spec name other); [congruence | reflexivity].
  - destruct (String.eqb_spec n name) as [-> | Hn]; simpl.
    + destruct (String.eqb_spec name other); [congruence | reflexivity].
    + now rewrite IH.
Qed.

Lemma set_entry_twice (entries : list (string * node)) name x y :
  set_entry (set_entry entries name x) name y = set_entry entries name y.
Proof.
  induction entries as [|[n z] entries IH]; simpl.
  - now rewrite String.eqb_refl.
  - destruct (String.eqb n name) eqn:Hn; simpl; rewrite Hn; [|rewrite IH];
      reflexivity.
Qed.

(** What a successful [create_csv_dataset] leaves behind. *)
Lemma create_csv_dataset_result (fs fs' : node) kvl :
  create_csv_dataset fs kvl = Some fs' ->
  exists entries files,
    fs' = Dir (set_entry entries dataset_dir
                 (Dir (set_entry files dataset_file
                         (File (Some (csv_text kvl)))))) /\
    forall name p,
      name <> dataset_dir ->
      resolve (Dir entries) (name :: p) = resolve fs (name :: p).
Proof.
  unfold create_csv_dataset, makedirs, write_text.
  destruct fs as [|entries]; [discriminate|].
  destruct (lookup_entry entries dataset_dir) as [[|files]|] eqn:Hdir.
  - discriminate.
  - rewrite Hdir.
    destruct (Utf8.valid (csv_text kvl));
      destruct (lookup_entry files dataset_file) as [[|]|];
      try discriminate; intros [= <-]; now exists entries, files.
  - rewrite lookup_set_entry. cbn [lookup_entry].
    destruct (Utf8.valid (csv_text kvl)); [|discriminate].
    intros [= <-]. exists (set_entry entries dataset_dir (Dir [])), [].
    split; [reflexivity|].
    intros name p Hname. cbn [resolve].
    now rewrite lookup_set_entry_other.
Qed.

Lemma create_csv_dataset_content (fs fs' : node) kvl :
  create_csv_dataset fs kvl = Some fs' ->
  resolve fs' dataset_path = Some (File (Some (csv_text kvl))).
Proof.
  intros H. apply create_csv_dataset_result in H as (entries & files & -> & _).
  unfold dataset_path. cbn [resolve]. rewrite lookup_set_entry.
  now rewrite lookup_set_entry.
Qed.

(** What has been written could be encoded. *)
Lemma create_csv_dataset_valid (fs fs' : node) kvl :
  create_csv_dataset fs kvl = Some fs' -> Utf8.valid (csv_text kvl) = true.
Proof.
  unfold create_csv_dataset, makedirs, write_text.
  destruct fs as [|entries]; [discriminate|].
  destruct (lookup_entry entries dataset_dir) as [[|files]|] eqn:Hdir.
  - discriminate.
  - rewrite Hdir.
    destruct (Utf8.valid (csv_text kvl)); [reflexivity|].
    now destruct (lookup_entry files dataset_file) as [[|]|].
  - rewrite lookup_set_entry. cbn [lookup_entry].
    now destruct (Utf8.valid (csv_text kvl)).
Qed.



Lemma read_files_no_newline fs subdir files acc recs :
  Forall (fun kv => Csv.any Csv.is_newline (snd kv) = false) acc ->
  read_files fs subdir files acc = Some recs ->
  Forall (fun kv => Csv.any Csv.is_newline (snd kv) = false) recs.
Proof.
  revert acc. induction files as [|file files IH]; intros acc Hacc; simpl.
  - now intros [= <-].
  - destruct (read_text fs (subdir ++ [file])) as [text|] eqn:Htext;
      [|discriminate].
    apply IH. apply List.Forall_app. split; [assumption|].
    constructor; [|constructor]. cbn [snd].
    unfold read_text in Htext.
    destruct (resolve fs (subdir ++ [file])) as [[[data|]|]|];
      try discriminate.
    injection Htext as <-. rewrite flattened.
    apply flattened_has_no_newline.
Qed.

Lemma read_dirs_no_newline fs walked acc recs :
  Forall (fun kv => Csv.any Csv.is_newline (snd kv) = false) acc ->
  read_dirs fs walked acc = Some recs ->
  Forall (fun kv => Csv.any Csv.is_newline (snd kv) = false) recs.
Proof.
  revert acc. induction walked as [|[[subdir dirs] files] walked IH];
    intros acc Hacc; simpl.
  - now intros [= <-].
  - destruct (read_files fs subdir files acc) as [acc'|] eqn:Hfiles;
      [|discriminate].
    apply IH. eapply read_files_no_newline; eassumption.
Qed.


End DatasetProperties.

(** ** The dataset builder: running it again *)

Section RunningAgain.
Import Dataset Corpus.

(** The paths of a walk all begin like its top. *)
Lemma walk_heads (x : node) :
  forall h t,
    Forall (fun w => exists t', fst (fst w) = h :: t') (walk (h :: t) x).
Proof.
  induction x as [data | all IH] using node_induction; intros h t.
  - constructor.
  - cbn [walk]. constructor; [now exists t|].
    induction all as [|[name y] all IHall]; [constructor|].
    cbn [flat_map fst snd]. apply List.Forall_app. split.
    + destruct (is_dir y); [|constructor].
      apply (List.Forall_inv IH h (t ++ [name])).
    + apply IHall. exact (List.Forall_inv_tail IH).
Qed.

(** Two file systems that agree below one name are read alike there. *)
Lemma read_files_agree fs fs' h t files acc :
  (forall p, resolve fs' (h :: p) = resolve fs (h :: p)) ->
  read_files fs' (h :: t) files acc = read_files fs (h :: t) files acc.
Proof.
  intros Hagree. revert acc.
  induction files as [|file files IH]; intros acc; [reflexivity|].
  cbn [read_files]. unfold read_text.
  change ((h :: t) ++ [file]) with (h :: (t ++ [file])).
  rewrite Hagree.
  destruct (resolve fs (h :: t ++ [file])) as [[[data|]|]|];
    try reflexivity.
  apply IH.
Qed.

Lemma read_dirs_agree fs fs' h walked acc :
  (forall p, resolve fs' (h :: p) = resolve fs (h :: p)) ->
  Forall (fun w => exists t', fst (fst w) = h :: t') walked ->
  read_dirs fs' walked acc = read_dirs fs walked acc.
Proof.
  intros Hagree Hheads. revert acc.
  induction Hheads as [|[[subdir dirs] files] walked [t Hsubdir] _ IH];
    intros acc; [reflexivity|].
  cbn [fst] in Hsubdir. subst subdir. cbn [read_dirs].
  rewrite (read_files_agree fs fs' h t files acc Hagree).
  destruct (read_files fs (h :: t) files acc); [apply IH | reflexivity].
Qed.

Lemma read_data_agree fs fs' root :
  (forall p, resolve fs' (root :: p) = resolve fs (root :: p)) ->
  read_data_from_files fs' root = read_data_from_files fs root.
Proof.
  intros Hagree. unfold read_data_from_files, os_walk. rewrite Hagree.
  destruct (resolve fs [root]) as [x|]; [|reflexivity].
  apply (read_dirs_agree fs fs' root); [assumption | apply walk_heads].
Qed.

(** After one run, another run changes nothing. *)
Lemma main_again (fs fs1 : node) :
  main fs = Some fs1 -> main fs1 = Some fs1.
Proof.
  unfold main.
  destruct (read_data_from_files fs root_folder) as [recs|] eqn:Hread;
    [|discriminate].
  intros Hcreate.
  pose proof (create_csv_dataset_valid fs fs1 recs Hcreate) as Hvalid.
  destruct (create_csv_dataset_result fs fs1 recs Hcreate)
    as (entries & files & -> & Hsame).
  set (fs1 := Dir (set_entry entries dataset_dir _)).
  assert (Hread1 : read_data_from_files fs1 root_folder = Some recs).
  { rewrite <- Hread. apply read_data_agree. intros p.
    rewrite <- Hsame by discriminate. unfold fs1. cbn [resolve].
    now rewrite lookup_set_entry_other by discriminate. }
  rewrite Hread1. unfold fs1, create_csv_dataset, makedirs, write_text.
  rewrite lookup_set_entry. rewrite lookup_set_entry.
  rewrite lookup_set_entry.
  rewrite Hvalid. now rewrite !set_entry_twice.
Qed.

Lemma runs_again (fs1 : node) (n : nat) :
  main fs1 = Some fs1 -> runs n fs1 = Some fs1.
Proof.
  intros Hmain. induction n as [|n IH]; [reflexivity|].
  cbn [runs]. now rewrite Hmain.
Qed.

(** C7. However often the builder is run on the same input, the output
    file is what the first run wrote: the header and the records of that
    input, one for each of its N files, which a CSV reader reads as N+1
    rows.  What the file held before the first run is gone. *)
Theorem rerun_overwrites (fs fs1 : node) (n : nat) :
  main fs = Some fs1 ->
  exists recs,
    read_data_from_files fs root_folder = Some recs /\
    (forall tree,
        resolve fs [root_folder] = Some tree -> wf tree = true ->
        length recs = length (files_of [root_folder] tree)) /\
    runs (S n) fs = Some fs1 /\
    resolve fs1 dataset_path = Some (File (Some (csv_text recs))) /\
    exists written,
      Csv.reader (csv_text recs) = Some written /\
      length written = S (length recs).
Proof.
  intros Hmain.
  assert (Hruns : runs (S n) fs = Some fs1).
  { cbn [runs]. rewrite Hmain. apply runs_again.
    now apply main_again with (fs := fs). }
  unfold main in Hmain.
  destruct (read_data_from_files fs root_folder) as [recs|] eqn:Hread;
    [|discriminate].
  exists recs. split; [reflexivity|]. split; [|split; [exact Hruns|split]].
  - intros tree Htree Hwf.
    rewrite (read_data_records fs root_folder tree Htree Hwf) in Hread.
    now apply records_of_length.
  - now apply create_csv_dataset_content with (fs := fs).
  - exists (["Date"; "Text"] :: map as_row recs). split.
    + apply (reader_writerows (["Date"; "Text"] :: map as_row recs)).
    + simpl. now rewrite length_map.
Qed.

End RunningAgain.

(** ** The properties at the sample data *)

Section AtTheSamples.
Import Py WeatherApp Props.

Lemma good_body_well_formed :
  well_formed Sample.env Sample.good_body Sample.paris.
Proof.
  split; [split|split]; [discriminate | reflexivity | reflexivity | discriminate].
Defined.

Lemma request_checks_witness :
  dispatch Sample.env Current
           {| get_json := PyDict [("weather", PyDict Sample.paris)] |} initial
    = (structured_error 400 "token is required", initial) /\
  dispatch Sample.env Forecast
           {| get_json := PyDict [("token", PyStr "guess");
                                  ("weather", PyDict Sample.paris)] |} initial
    = (structured_error 403 "wrong API token", initial) /\
  dispatch Sample.env History
           {| get_json := PyDict [("token", PyStr "s3cret");
                                  ("weather", PyDict [])] |} initial
    = (structured_error 400 "weather params must be provided", initial).
Proof.
  split; [|split]; apply request_checks.
  - apply token_missing. reflexivity.
  - apply (token_wrong _ _ (PyStr "guess"));
      [reflexivity | discriminate | discriminate].
  - apply weather_missing.
    + split; [discriminate | reflexivity].
    + right. exists (PyDict []). split; reflexivity.
Defined.

Lemma null_token_witness :
  dispatch Sample.unset_env Current
           {| get_json := PyDict [("token", PyNone);
                                  ("weather", PyDict Sample.paris)] |} initial
    = (structured_error 400 "token is required", initial) /\
  dispatch Sample.unset_env Current
           {| get_json := PyDict [("token", PyNone);
                                  ("weather", PyDict Sample.paris)] |} initial
    = dispatch Sample.unset_env Current
        {| get_json := PyDict (dict_remove [("token", PyNone);
                                            ("weather", PyDict Sample.paris)]
                                           "token") |} initial /\
  status (fst (dispatch Sample.unset_env Current
                 {| get_json := PyDict [("token", PyNone);
                                        ("weather", PyDict Sample.paris)] |}
                 initial)) <> 403.
Proof.
  exact (null_token_is_missing_token Sample.unset_env Current
           [("token", PyNone); ("weather", PyDict Sample.paris)] initial
           eq_refl).
Defined.

(** A forecast for 100 days and a history before 2010 go out as they came
    in. *)
Lemma request_values_forwarded_witness :
  (exists c,
      calls (snd (dispatch Sample.env Forecast
                    {| get_json := PyDict Sample.good_body |} initial))
        = [c] /\
      dict_lookup (call_params c) "days" = Some (PyInt 100)) /\
  (exists c,
      calls (snd (dispatch Sample.env History
                    {| get_json := PyDict Sample.good_body |} initial))
        = [c] /\
      dict_lookup (call_params c) "dt" = Some (PyStr "2009-12-31") /\
      dict_lookup (call_params c) "end_dt" = Some (PyStr "2024-02-30")).
Proof.
  split.
  - destruct (request_values_forwarded Sample.env Forecast Sample.good_body
                Sample.paris initial good_body_well_formed)
      as [(c & Hcalls & Hdays) _].
    exists c. split; [exact Hcalls | exact Hdays].
  - destruct (request_values_forwarded Sample.env History Sample.good_body
                Sample.paris initial good_body_well_formed)
      as [(c & Hcalls & Hdt & Hend) _].
    exists c. split; [exact Hcalls | split; [exact Hdt | exact Hend]].
Defined.

(** C3, as stated, fails: a history request whose [end_dt] is the empty
    string makes a call without [end_dt]. *)
Lemma empty_end_dt_is_not_forwarded :
  dict_lookup Sample.empty_end_dt_body "weather"
    = Some (PyDict [("q", PyStr "Paris"); ("dt", PyStr "2024-03-01");
                    ("end_dt", PyStr "")]) /\
  calls (snd (dispatch Sample.env History
                {| get_json := PyDict Sample.empty_end_dt_body |} initial))
    = [{| call_method := "GET";
          call_url := "http://api.weatherapi.com/v1/history.json";
          call_params := [("key", PyStr "k3y"); ("q", PyStr "Paris");
                          ("dt", PyStr "2024-03-01")] |}] /\
  dict_lookup [("key", PyStr "k3y"); ("q", PyStr "Paris");
               ("dt", PyStr "2024-03-01")] "end_dt" = None.
Proof. split; [|split]; reflexivity. Qed.

(** C8, as stated, fails: the one call of a lookup goes to an http URL, not
    to an https one. *)
Lemma lookup_url_is_not_https :
  issued (run_lookup Sample.env (CurrentLookup (PyStr "Paris") PyNone)) initial
    = [{| call_method := "GET";
          call_url := "http://api.weatherapi.com/v1/current.json";
          call_params := [("key", PyStr "k3y"); ("q", PyStr "Paris")] |}] /\
  is_https "http://api.weatherapi.com/v1/current.json" = false /\
  is_https url_base_url = false.
Proof. split; [|split]; reflexivity. Qed.

(** A provider that answers 502 with a page that is not JSON. *)
Lemma provider_reply_witness :
  fst (dispatch Sample.garbled_env Current
         {| get_json := PyDict Sample.good_body |} initial)
    = internal_server_error.
Proof.
  refine (proj1 (proj2 (proj2 (provider_reply_passed_through
                                 Sample.garbled_env
                                 (lookup_of Current Sample.paris) initial))
                   Current Sample.good_body Sample.paris _
                   {| reply_status := 502; reply_text := "<html>" |}
                   eq_refl _ eq_refl eq_refl)).
  split; [split|split]; [discriminate | reflexivity | reflexivity | discriminate].
Defined.

Lemma current_weather_success_witness :
  exists rv,
    fst (dispatch Sample.env Current
           {| get_json := PyDict Sample.good_body |} initial)
      = {| status := 200; content := Json (PyDict rv) |} /\
    dict_keys rv = ["weather"; "event_start_datetime";
                    "event_finished_datetime"; "event_duration"] /\
    dict_lookup rv "weather" = Some Sample.sunny /\
    dict_lookup rv "event_start_datetime" = Some (PyStr "2024-03-01T09:05:07") /\
    dict_lookup rv "event_finished_datetime"
      = Some (PyStr "2024-03-01T09:05:08.001234") /\
    String.leb "2024-03-01T09:05:07" "2024-03-01T09:05:08.001234" = true.
Proof.
  destruct (current_weather_success Sample.env Sample.good_body Sample.paris
              initial
              {| call_method := "GET";
                 call_url := "http://api.weatherapi.com/v1/current.json";
                 call_params := [("key", PyStr "k3y"); ("q", PyStr "Paris");
                                 ("lang", PyStr "fr")] |}
              {| reply_status := 200; reply_text := "sunny" |}
              Sample.sunny good_body_well_formed eq_refl eq_refl eq_refl)
    as (rv & start & finished & Hfst & Hkeys & Hweather & Hstart & Hfinished
        & _ & -> & -> & Horder).
  exists rv. repeat (split; [assumption|]).
  apply Horder; [| |reflexivity]; unfold DateTime.valid; cbn; lia.
Defined.

(** C2, as stated, fails: when the local clock is set back between the two
    readings, the finished datetime is before the start datetime. *)
Lemma finished_before_start_when_clock_is_set_back :
  fst (dispatch Sample.autumn_env Current
         {| get_json := PyDict Sample.good_body |} initial)
    = {| status := 200;
         content :=
           Json (PyDict
                   [("weather", Sample.sunny);
                    ("event_start_datetime",
                     PyStr "2024-10-27T03:59:59.900000");
                    ("event_finished_datetime",
                     PyStr "2024-10-27T03:00:00.100000");
                    ("event_duration", PyStr "-1 day, 23:00:00.200000")]) |} /\
  String.ltb "2024-10-27T03:00:00.100000" "2024-10-27T03:59:59.900000" = true.
Proof. split; reflexivity. Qed.

End AtTheSamples.

Section AtTheSampleTree.
Import Dataset Corpus.

(** The first testable property of the builder, with one more file of the
    same name. *)
Lemma files_become_records_witness :
  read_data_from_files Sample.disk "row_data" = Some Sample.records /\
  length Sample.records = length (files_of ["row_data"] Sample.reports) /\
  In (["row_data"; "sub"; "a.txt"], Some "again")
     (files_of ["row_data"] Sample.reports).
Proof.
  destruct (files_become_records Sample.disk "row_data" Sample.reports
              eq_refl eq_refl) as (Hfiles & _ & Hread & Heach).
  split; [rewrite Hread; reflexivity|]. split.
  - apply Heach. rewrite Hread. reflexivity.
  - apply Hfiles. split; [discriminate | reflexivity].
Defined.



Lemma rerun_overwrites_witness :
  exists recs,
    read_data_from_files Sample.disk root_folder = Some recs /\
    runs 3 Sample.disk = Some Sample.disk_after /\
    resolve Sample.disk_after dataset_path
      = Some (File (Some (csv_text recs))) /\
    exists written,
      Csv.reader (csv_text recs) = Some written /\
      length written = S (length recs).
Proof.
  destruct (rerun_overwrites Sample.disk Sample.disk_after 2 eq_refl)
    as (recs & Hread & _ & Hruns & Hfile & Hrows).
  exists recs. repeat (split; [assumption|]). exact Hrows.
Defined.

End AtTheSampleTree.

(** ** The weather proxy service: every request *)

Section EveryRequest.
Import Py WeatherApp Props Further.

Variable E : environment.

Lemma dict_get_is_dict (d : dict) (k : string) (sub : dict) :
  dict_get d k = PyDict sub -> dict_lookup d k = Some (PyDict sub).
Proof.
  unfold dict_get. destruct (dict_lookup d k); [now intros -> | discriminate].
Qed.

(** A body that is not an object stops the first check. *)
Lemma dispatch_not_object (e : endpoint) (v : value) (w : world) :
  (forall d, v <> PyDict d) ->
  dispatch E e {| get_json := v |} w = (internal_server_error, w).
Proof.
  intros Hv. destruct v; try (destruct e; reflexivity).
  now destruct (Hv d).
Qed.

(** A request that passes the checks with a [weather] that is not an
    object stops in the handler, after the first reading of the clock. *)
Lemma dispatch_weather_not_object (e : endpoint) (body : dict) (w : world) :
  authorized E body ->
  truthy (dict_get body "weather") = true ->
  (forall d, dict_get body "weather" <> PyDict d) ->
  dispatch E e {| get_json := PyDict body |} w
  = (internal_server_error, {| ticks := S (ticks w); calls := calls w |}).
Proof.
  intros Hauth Htruthy Hv. unfold dispatch.
  destruct e; simpl;
    unfold current_weather_endpoint, weather_forecast_endpoint,
      weather_history_endpoint;
    rewrite (authorize_pass E _ _ _ Hauth Htruthy);
    unfold add_execution_time_params_to_response, bind, datetime_now, get, ret;
    simpl; destruct (dict_get body "weather"); try reflexivity;
    now destruct (Hv d).
Qed.

(** The four ways a request can go. *)
Lemma dispatch_cases (e : endpoint) (request : Request) (w : world) :
  ((forall d, get_json request <> PyDict d) /\
   dispatch E e request w = (internal_server_error, w)) \/
  (exists body code msg,
      get_json request = PyDict body /\
      (code = 400 \/ code = 403) /\
      (authorized E body -> truthy (dict_get body "weather") = false) /\
      dispatch E e request w = (structured_error code msg, w)) \/
  (exists body,
      get_json request = PyDict body /\
      authorized E body /\
      dispatch E e request w
      = (internal_server_error, {| ticks := S (ticks w); calls := calls w |})) \/
  (exists body wp, get_json request = PyDict body /\ well_formed E body wp).
Proof.
  destruct request as [v].
  destruct v as [| | | | |l|body];
    try (left; split; [discriminate | now apply dispatch_not_object]).
  right. cbn [get_json].
  destruct (is_none (dict_get body "token")) eqn:Hnone.
  { left. exists body, 400, "token is required".
    split; [reflexivity|]. split; [now left|]. split.
    - intros [Hsome _]. apply is_none_spec in Hnone. contradiction.
    - apply dispatch_rejected. intros f. rewrite authorize_unfold.
      now rewrite Hnone. }
  destruct (eq_getenv (dict_get body "token") (API_TOKEN E)) eqn:Heq.
  2:{ left. exists body, 403, "wrong API token".
      split; [reflexivity|]. split; [now right|]. split.
      - intros [_ Hmatch]. apply eq_getenv_spec in Hmatch. congruence.
      - apply dispatch_rejected. intros f. rewrite authorize_unfold.
        now rewrite Hnone, Heq. }
  assert (Hauth : authorized E body).
  { split; [|now apply eq_getenv_spec].
    intros H. apply is_none_spec in H. congruence. }
  destruct (truthy (dict_get body "weather")) eqn:Htruthy.
  2:{ left. exists body, 400, "weather params must be provided".
      split; [reflexivity|]. split; [now left|]. split; [trivial|].
      apply dispatch_rejected. intros f. rewrite authorize_unfold.
      now rewrite Hnone, Heq, Htruthy. }
  right.
  destruct (dict_get body "weather") as [| | | | | |wp] eqn:Hweather;
    try (left; exists body; split; [reflexivity|]; split; [assumption|];
         apply dispatch_weather_not_object;
         [assumption | now rewrite Hweather | rewrite Hweather; discriminate]).
  right. exists body, wp. split; [reflexivity|].
  split; [assumption|]. split; [now apply dict_get_is_dict|].
  now destruct wp.
Qed.

End EveryRequest.

Section EveryRequestProperties.
Import Py WeatherApp Props Further.

Variable E : environment.

(** X1. A request whose JSON body is not an object (a list, a string, a
    number, a boolean, null) is answered by no check at all: the first
    [get] raises, the answer is the framework's 500 page, and neither the
    clock nor the provider has been touched. *)
Theorem body_that_is_no_object (e : endpoint) (v : value) (w : world) :
  (forall d, v <> PyDict d) ->
  dispatch E e {| get_json := v |} w = (internal_server_error, w).
Proof.
  intros Hv. destruct v as [| | | | | |d]; try (destruct e; reflexivity).
  now destruct (Hv d).
Qed.

(** X2. A request with the right token whose [weather] is truthy but is
    not an object (a string, a number, a non-empty list) passes the three
    checks and fails in the handler: the answer is the 500 page, the clock
    has been read once, and no provider call has been made. *)
Theorem weather_that_is_no_object (e : endpoint) (body : dict) (w : world)
    (weather : value) :
  authorized E body ->
  dict_lookup body "weather" = Some weather ->
  truthy weather = true ->
  (forall d, weather <> PyDict d) ->
  dispatch E e {| get_json := PyDict body |} w
  = (internal_server_error, {| ticks := S (ticks w); calls := calls w |}).
Proof.
  intros Hauth Hweather Htruthy Hv.
  apply dispatch_weather_not_object; [assumption | |];
    now rewrite (dict_get_present _ _ _ Hweather).
Qed.

(** The answer to a well-formed request and the world it leaves, from what
    the provider does with its one call. *)
Lemma well_formed_dispatch (e : endpoint) (body wp : dict) (w : world) :
  well_formed E body wp ->
  exists c,
    issued (run_lookup E (lookup_of e wp)) w = [c] /\
    dispatch E e {| get_json := PyDict body |} w =
    match network E c with
    | Some r =>
        match loads E (reply_text r) with
        | Some v =>
            ({| status := 200;
                content := Json (PyDict (timed_body v (clock E (ticks w))
                                           (clock E (S (ticks w))))) |},
             {| ticks := S (S (ticks w)); calls := calls w ++ [c] |})
        | None =>
            (internal_server_error,
             {| ticks := S (ticks w); calls := calls w ++ [c] |})
        end
    | None =>
        (internal_server_error,
         {| ticks := S (ticks w); calls := calls w ++ [c] |})
    end.
Proof.
  intros Hwf.
  destruct (lookup_runs E (lookup_of e wp)) as (params & Hrun & _).
  cbn zeta in Hrun. eexists. split; [eapply issued_one; apply Hrun|].
  unfold dispatch. rewrite (endpoint_runs_lookup E _ _ _ _ Hwf). cbn zeta.
  rewrite Hrun. destruct (network E _) as [r|]; [|reflexivity].
  destruct (loads E (reply_text r)); reflexivity.
Qed.

(** X3. When the provider cannot be reached ([requests.request] raises),
    a well-formed request ends in the 500 page: its one call has been
    made, the clock has been read once only, and nothing is retried. *)
Theorem provider_unreachable (e : endpoint) (body wp : dict) (w : world)
    (c : http_call) :
  well_formed E body wp ->
  issued (run_lookup E (lookup_of e wp)) w = [c] ->
  network E c = None ->
  dispatch E e {| get_json := PyDict body |} w
  = (internal_server_error,
     {| ticks := S (ticks w); calls := calls w ++ [c] |}).
Proof.
  intros Hwf Hc Hnet.
  destruct (well_formed_dispatch e body wp w Hwf) as (c' & Hc' & ->).
  rewrite Hc in Hc'. injection Hc' as <-. now rewrite Hnet.
Qed.

(** What a well-formed request leaves behind. *)
Lemma well_formed_world (e : endpoint) (body wp : dict) (w : world) :
  well_formed E body wp ->
  exists c,
    issued (run_lookup E (lookup_of e wp)) w = [c] /\
    calls (snd (dispatch E e {| get_json := PyDict body |} w))
      = calls w ++ [c] /\
    ((exists r v,
         network E c = Some r /\ loads E (reply_text r) = Some v /\
         status (fst (dispatch E e {| get_json := PyDict body |} w)) = 200 /\
         ticks (snd (dispatch E e {| get_json := PyDict body |} w))
           = S (S (ticks w))) \/
     ((network E c = None \/
       exists r, network E c = Some r /\ loads E (reply_text r) = None) /\
      fst (dispatch E e {| get_json := PyDict body |} w)
        = internal_server_error /\
      ticks (snd (dispatch E e {| get_json := PyDict body |} w))
        = S (ticks w))).
Proof.
  intros Hwf.
  destruct (well_formed_dispatch e body wp w Hwf) as (c & Hc & ->).
  exists c. split; [exact Hc|].
  destruct (network E c) as [r|] eqn:Hnet.
  - destruct (loads E (reply_text r)) as [v|] eqn:Hloads.
    + split; [reflexivity|]. left. exists r, v. now repeat split.
    + split; [reflexivity|]. right. split; [|now split].
      right. now exists r.
  - split; [reflexivity|]. right. split; [now left | now split].
Qed.

(** The answers to the requests whose body Flask has decoded. *)
Lemma decoded_answer (e : endpoint) (request : Request) (w : world) :
  let answer := fst (dispatch E e request w) in
  let w' := snd (dispatch E e request w) in
  (status answer = 200 \/ status answer = 400 \/ status answer = 403
   \/ status answer = 500) /\
  (calls w' = calls w \/ exists c, calls w' = calls w ++ [c]) /\
  (ticks w <= ticks w' <= S (S (ticks w)))%nat /\
  (status answer = 200 ->
   (exists c, calls w' = calls w ++ [c]) /\ ticks w' = S (S (ticks w))).
Proof.
  cbn zeta.
  destruct (dispatch_cases E e request w)
    as [[_ ->] | [(body & code & msg & _ & Hcode & _ & ->)
       | [(body & _ & _ & ->) | (body & wp & Hbody & Hwf)]]]; cbn [fst snd].
  - cbn. split; [tauto|]. split; [now left|]. split; [lia|]. discriminate.
  - cbn. split; [tauto|]. split; [now left|]. split; [lia|].
    intros ->. destruct Hcode; discriminate.
  - cbn. split; [tauto|]. split; [now left|]. split; [lia|]. discriminate.
  - destruct request as [v]. cbn [get_json] in Hbody. subst v.
    destruct (well_formed_world e body wp w Hwf)
      as (c & _ & Hcalls & [(r & v & _ & _ & Hstatus & Hticks)
                           | (_ & Hfst & Hticks)]).
    + rewrite Hstatus, Hcalls, Hticks. split; [tauto|].
      split; [right; now exists c|]. split; [lia|].
      intros _. split; [now exists c | reflexivity].
    + rewrite Hfst, Hcalls, Hticks. cbn. split; [tauto|].
      split; [right; now exists c|]. split; [lia|]. discriminate.
Qed.

(** X4. Whatever is posted to a weather route, the answer has status 200,
    400, 403, 415 or 500: 415 exactly when the content type is not JSON, and
    then, as for a body that is not JSON, nothing has been done.  At most
    one provider call is added to those made before, and none is removed;
    the clock is read at most twice.  An answer with status 200 comes with
    exactly one call and two readings of the clock. *)
Theorem every_answer (e : endpoint) (r : HttpRequest) (w : world) :
  let answer := fst (full_dispatch_request E e r w) in
  let w' := snd (full_dispatch_request E e r w) in
  (status answer = 200 \/ status answer = 400 \/ status answer = 403
   \/ status answer = 415 \/ status answer = 500) /\
  (status answer = 415 <-> is_json r = false) /\
  (is_json r = false \/ loads E (data r) = None -> w' = w) /\
  (calls w' = calls w \/ exists c, calls w' = calls w ++ [c]) /\
  (ticks w <= ticks w' <= S (S (ticks w)))%nat /\
  (status answer = 200 ->
   (exists c, calls w' = calls w ++ [c]) /\ ticks w' = S (S (ticks w))).
Proof.
  cbn zeta. unfold full_dispatch_request.
  destruct (is_json r).
  - destruct (loads E (data r)) as [json_data|].
    + pose proof (decoded_answer e {| get_json := json_data |} w) as H.
      cbn zeta in H. destruct H as (Hstatus & Hcalls & Hticks & Hok).
      split; [tauto|]. split.
      { split; [|discriminate]. intros H415.
        destruct Hstatus as [H | [H | [H | H]]]; rewrite H in H415;
          discriminate. }
      split; [intros [H | H]; discriminate|].
      split; [exact Hcalls|]. split; [exact Hticks | exact Hok].
    + cbn. split; [tauto|]. split; [split; discriminate|].
      split; [reflexivity|]. split; [now left|]. split; [lia|]. discriminate.
  - cbn. split; [tauto|]. split; [split; reflexivity|].
    split; [reflexivity|]. split; [now left|]. split; [lia|]. discriminate.
Qed.

(** X5. The provider is called only for a request that carries the
    configured token as a JSON string and a non-empty [weather] object: a
    token of another type (the number 123 for the token ["123"]) never
    opens the way to the provider. *)
Theorem provider_call_needs_the_token (e : endpoint) (request : Request)
    (w : world) :
  calls (snd (dispatch E e request w)) <> calls w ->
  exists body token wp,
    get_json request = PyDict body /\
    dict_lookup body "token" = Some (PyStr token) /\
    API_TOKEN E = Some token /\
    dict_lookup body "weather" = Some (PyDict wp) /\
    wp <> [].
Proof.
  intros Hcalls.
  destruct (dispatch_cases E e request w)
    as [[_ H] | [(body & code & msg & _ & _ & _ & H)
       | [(body & _ & _ & H) | (body & wp & Hbody & Hwf)]]];
    try (rewrite H in Hcalls; now destruct Hcalls).
  destruct Hwf as ([Hsome Hmatch] & Hweather & Hwp).
  exists body.
  unfold dict_get in Hsome, Hmatch.
  destruct (dict_lookup body "token") as [token|] eqn:Htoken; [|easy].
  destruct (API_TOKEN E) as [configured|] eqn:Hconf; cbn in Hmatch; [|easy].
  subst token. now exists configured, wp.
Qed.

(** Without [API_TOKEN] no decoded body passes the checks. *)
Lemma unset_token_decoded (e : endpoint) (request : Request)
    (w : world) :
  API_TOKEN E = None ->
  snd (dispatch E e request w) = w /\
  (status (fst (dispatch E e request w)) = 400 \/
   status (fst (dispatch E e request w)) = 403 \/
   status (fst (dispatch E e request w)) = 500).
Proof.
  intros Hunset.
  assert (Hnobody : forall body, ~ authorized E body).
  { intros body [Hsome Hmatch]. rewrite Hunset in Hmatch. contradiction. }
  destruct (dispatch_cases E e request w)
    as [[_ ->] | [(body & code & msg & _ & Hcode & _ & ->)
       | [(body & _ & Hauth & _) | (body & wp & _ & Hauth & _)]]].
  - cbn. tauto.
  - cbn. tauto.
  - now destruct (Hnobody body).
  - now destruct (Hnobody body).
Qed.

(** X6. A service started without [API_TOKEN] answers nothing that is
    posted to it with 200: every answer is 400, 403, 415 or 500, and the
    world is left as it was, so the clock is not read and the provider is
    never called. *)
Theorem unset_token_locks_the_service (e : endpoint) (r : HttpRequest)
    (w : world) :
  API_TOKEN E = None ->
  snd (full_dispatch_request E e r w) = w /\
  (status (fst (full_dispatch_request E e r w)) = 400 \/
   status (fst (full_dispatch_request E e r w)) = 403 \/
   status (fst (full_dispatch_request E e r w)) = 415 \/
   status (fst (full_dispatch_request E e r w)) = 500).
Proof.
  intros Hunset. unfold full_dispatch_request.
  destruct (is_json r); [|cbn; tauto].
  destruct (loads E (data r)) as [json_data|]; [|cbn; tauto].
  destruct (unset_token_decoded e {| get_json := json_data |} w Hunset)
    as (Hworld & Hstatus).
  split; [exact Hworld | tauto].
Qed.

(** X7. The answer depends on the body only through the token check and
    the parameters the endpoint reads from [weather]: two well-formed
    bodies that agree on those get the same answer and leave the same
    world, whatever else they hold. *)
Theorem unread_keys_are_ignored (e : endpoint) (body wp body' wp' : dict)
    (w : world) :
  well_formed E body wp ->
  well_formed E body' wp' ->
  lookup_of e wp = lookup_of e wp' ->
  dispatch E e {| get_json := PyDict body |} w
  = dispatch E e {| get_json := PyDict body' |} w.
Proof.
  intros Hwf Hwf' Hsame. unfold dispatch.
  rewrite (endpoint_runs_lookup E _ _ _ _ Hwf),
    (endpoint_runs_lookup E _ _ _ _ Hwf'), Hsame.
  reflexivity.
Qed.

(** X10. An answer has status 200 exactly when the body is well formed,
    the provider answered the one call, and its text decoded. *)
Theorem success_exactly_when (e : endpoint) (request : Request) (w : world) :
  status (fst (dispatch E e request w)) = 200 <->
  exists body wp c r v,
    get_json request = PyDict body /\
    well_formed E body wp /\
    issued (run_lookup E (lookup_of e wp)) w = [c] /\
    network E c = Some r /\
    loads E (reply_text r) = Some v.
Proof.
  split.
  - intros Hstatus.
    destruct (dispatch_cases E e request w)
      as [[_ H] | [(body & code & msg & _ & Hcode & _ & H)
         | [(body & _ & _ & H) | (body & wp & Hbody & Hwf)]]];
      try (rewrite H in Hstatus; cbn in Hstatus;
           try destruct Hcode; subst; discriminate).
    destruct request as [v0]. cbn [get_json] in Hbody. subst v0.
    destruct (well_formed_world e body wp w Hwf)
      as (c & Hc & _ & [(r & v & Hnet & Hloads & _ & _) | (_ & Hfst & _)]).
    + now exists body, wp, c, r, v.
    + rewrite Hfst in Hstatus. discriminate.
  - intros (body & wp & c & r & v & Hbody & Hwf & Hc & Hnet & Hloads).
    destruct request as [v0]. cbn [get_json] in Hbody. subst v0.
    destruct (well_formed_world e body wp w Hwf)
      as (c' & Hc' & _ & [(_ & _ & _ & _ & Hstatus & _)
                         | ([Hnone | (r' & Hnet' & Hloads')] & _ & _)]).
    + exact Hstatus.
    + rewrite Hc in Hc'. injection Hc' as <-. congruence.
    + rewrite Hc in Hc'. injection Hc' as <-. congruence.
Qed.

End EveryRequestProperties.

(** ** The weather proxy service: errors, timing and the outbound call *)

Section ErrorsTimingCalls.
Import Py WeatherApp Props Further.

Lemma dict_lookup_set (d : dict) (k : string) (v : value) :
  dict_lookup (dict_set d k v) k = Some v.
Proof.
  induction d as [|[k' v'] d IH]; simpl.
  - now rewrite String.eqb_refl.
  - destruct (String.eqb k' k) eqn:Hk; simpl.
    + now rewrite String.eqb_refl.
    + now rewrite Hk.
Qed.

Lemma dict_lookup_set_other (d : dict) (k k' : string) (v : value) :
  k' <> k -> dict_lookup (dict_set d k v) k' = dict_lookup d k'.
Proof.
  intros Hne. induction d as [|[k0 v0] d IH]; simpl.
  - destruct (String.eqb_spec k k'); [congruence | reflexivity].
  - destruct (String.eqb_spec k0 k) as [-> | Hk0]; simpl.
    + destruct (String.eqb_spec k k'); [congruence | reflexivity].
    + now rewrite IH.
Qed.

(** X8. The handler answers an [InvalidUsage] with the error's own status
    (400 when none was given) and a JSON object: its [message] is the
    error's message, also when the payload has a [message] of its own, and
    every other key is the payload's. *)
Theorem error_answer (error : InvalidUsage) :
  status (handle_invalid_usage error) = status_code error /\
  (forall msg payload, status_code (new_InvalidUsage msg None payload) = 400) /\
  exists d,
    content (handle_invalid_usage error) = Json (PyDict d) /\
    dict_lookup d "message" = Some (PyStr (message error)) /\
    forall k,
      k <> "message" ->
      dict_lookup d k = match payload error with
                        | Some p => dict_lookup p k
                        | None => None
                        end.
Proof.
  split; [reflexivity|]. split; [reflexivity|].
  exists (to_dict error). split; [reflexivity|]. unfold to_dict. split.
  - apply dict_lookup_set.
  - intros k Hk. rewrite dict_lookup_set_other by assumption.
    destruct (payload error) as [[|kv p]|]; reflexivity.
Qed.

Variable E : environment.

(** X9. The timing decorator around any view: the clock is read, the
    view runs, and if it raises the exception goes on and the clock is
    not read again.  If it returns, the clock is read once more and the
    three timing keys hold the two readings and their difference, also
    when the view had set such a key itself; every other key of the
    view's answer is kept as it was. *)
Theorem timing_around_any_view (f : view) (request : Request) (w : world) :
  match f request {| ticks := S (ticks w); calls := calls w |} with
  | (Raise x, w2) =>
      add_execution_time_params_to_response E f request w = (Raise x, w2)
  | (Return response, w2) =>
      exists rv,
        add_execution_time_params_to_response E f request w
        = (Return rv, {| ticks := S (ticks w2); calls := calls w2 |}) /\
        dict_lookup rv "event_start_datetime"
          = Some (PyStr (DateTime.isoformat (clock E (ticks w)))) /\
        dict_lookup rv "event_finished_datetime"
          = Some (PyStr (DateTime.isoformat (clock E (ticks w2)))) /\
        dict_lookup rv "event_duration"
          = Some (PyStr (DateTime.timedelta_str
                           (DateTime.sub (clock E (ticks w2))
                                         (clock E (ticks w))))) /\
        forall k, ~ In k timing_keys ->
                  dict_lookup rv k = dict_lookup response k
  end.
Proof.
  unfold add_execution_time_params_to_response, bind, datetime_now, ret.
  cbn [ticks calls].
  destruct (f request _) as [[response|x] w2]; [|reflexivity].
  eexists. split; [reflexivity|].
  unfold dict_update. cbn [fold_left fst snd].
  split; [|split; [|split]].
  - rewrite !dict_lookup_set_other by discriminate. apply dict_lookup_set.
  - rewrite dict_lookup_set_other by discriminate. apply dict_lookup_set.
  - apply dict_lookup_set.
  - intros k Hk. cbn [timing_keys In] in Hk.
    rewrite !dict_lookup_set_other; [reflexivity|..];
      intros ->; tauto.
Qed.

(** X11. For a well-formed request the endpoint calls [requests.request]
    once, with GET, the provider path of its own operation, and a [params]
    dictionary whose keys are exactly: [key], [q], then [days] (forecast) or
    [dt] and a truthy [end_dt] (history), then a truthy [lang].  The entry
    [q] is the body's value, [None] when the body has none; nothing else of
    the body is among the arguments of the call. *)
Theorem the_call_of_an_endpoint (e : endpoint) (body wp : dict) (w : world) :
  well_formed E body wp ->
  exists c,
    calls (snd (dispatch E e {| get_json := PyDict body |} w))
      = calls w ++ [c] /\
    call_method c = "GET" /\
    call_url c = url_base_url +:+ "/"
                 +:+ match e with
                     | Current => "current.json"
                     | Forecast => "forecast.json"
                     | History => "history.json"
                     end /\
    dict_keys (call_params c) = param_names e wp /\
    dict_lookup (call_params c) "q" = Some (dict_get wp "q").
Proof.
  intros Hwf.
  destruct (well_formed_response E e body wp w Hwf) as (c & Hc & Hcalls & _).
  exists c. split; [exact Hcalls|].
  destruct (lookup_runs E (lookup_of e wp)) as (params & Hrun & Hparams).
  cbn zeta in Hrun. rewrite (issued_one _ _ _ _ (Hrun w)) in Hc.
  injection Hc as <-. cbn [call_method call_url call_params].
  split; [reflexivity|]. subst params. unfold param_names.
  destruct e; cbn [lookup_of suffix].
  - destruct (truthy (dict_get wp "lang")); repeat split.
  - destruct (truthy (dict_get wp "lang")); repeat split.
  - destruct (truthy (dict_get wp "end_dt")),
      (truthy (dict_get wp "lang")); repeat split.
Qed.

End ErrorsTimingCalls.

(** ** The dataset builder: edges, failures and what is left alone *)

Section BuilderEdges.
Import Dataset Corpus Further.

(** X12. When the root folder holds no file at all (it is missing, it is
    a file itself, or its directories are all empty), nothing is read and
    nothing fails: the result is the empty list, and [main] writes a
    dataset that is the header row alone. *)
Theorem nothing_to_read (fs : node) :
  (forall x, resolve fs [root_folder] = Some x ->
             wf x = true /\ files_of [root_folder] x = []) ->
  read_data_from_files fs root_folder = Some [] /\
  main fs = create_csv_dataset fs [] /\
  Csv.reader (csv_text []) = Some [["Date"; "Text"]] /\
  forall fs1,
    main fs = Some fs1 ->
    resolve fs1 dataset_path = Some (File (Some (csv_text []))).
Proof.
  intros Hempty.
  assert (Hread : read_data_from_files fs root_folder = Some []).
  { destruct (resolve fs [root_folder]) as [x|] eqn:Hroot.
    - destruct (Hempty x eq_refl) as [Hwf Hfiles].
      now rewrite (read_data_records fs root_folder x Hroot Hwf), Hfiles.
    - unfold read_data_from_files, os_walk. now rewrite Hroot. }
  split; [exact Hread|].
  assert (Hmain : main fs = create_csv_dataset fs [])
    by (unfold main; now rewrite Hread).
  split; [exact Hmain|]. split; [reflexivity|].
  intros fs1 H. rewrite Hmain in H.
  now apply create_csv_dataset_content with (fs := fs).
Qed.

Lemma records_of_unreadable (files : list (path * option string)) p :
  In (p, None) files -> records_of files = None.
Proof.
  induction files as [|f files IH]; [contradiction|].
  intros [-> | Hin]; [reflexivity|].
  cbn [records_of]. rewrite (IH Hin). now destruct (record_of f).
Qed.

(** X13. One file of the tree that cannot be read (or is not UTF-8) makes
    [read_data_from_files] fail, wherever the file is and however many
    files were read before it; [main] then fails before
    [create_csv_dataset] is reached, so no output is written. *)
Theorem unreadable_file_aborts (fs tree : node) (p : path) :
  resolve fs [root_folder] = Some tree ->
  wf tree = true ->
  In (p, None) (files_of [root_folder] tree) ->
  read_data_from_files fs root_folder = None /\ main fs = None.
Proof.
  intros Hroot Hwf Hin.
  assert (Hread : read_data_from_files fs root_folder = None).
  { rewrite (read_data_records fs root_folder tree Hroot Hwf).
    now apply records_of_unreadable with (p := p). }
  split; [exact Hread|]. unfold main. now rewrite Hread.
Qed.

(** What [create_csv_dataset] leaves as it was. *)
Lemma create_csv_dataset_keeps (fs fs1 : node) kvl :
  create_csv_dataset fs kvl = Some fs1 ->
  (forall name p,
      name <> dataset_dir ->
      resolve fs1 (name :: p) = resolve fs (name :: p)) /\
  (forall name p,
      name <> dataset_file ->
      resolve fs1 (dataset_dir :: name :: p)
      = resolve fs (dataset_dir :: name :: p)).
Proof.
  unfold create_csv_dataset, makedirs, write_text.
  destruct fs as [|entries]; [discriminate|].
  destruct (lookup_entry entries dataset_dir) as [[|files]|] eqn:Hdir.
  - discriminate.
  - rewrite Hdir.
    destruct (Utf8.valid (csv_text kvl));
      destruct (lookup_entry files dataset_file) as [[|]|] eqn:Hfile;
      try discriminate; intros [= <-]; split; intros name p Hname;
      cbn [resolve];
      rewrite ?lookup_set_entry, ?Hdir;
      now rewrite lookup_set_entry_other.
  - rewrite lookup_set_entry. cbn [lookup_entry].
    destruct (Utf8.valid (csv_text kvl)); [|discriminate].
    intros [= <-]. rewrite set_entry_twice. split; intros name p Hname;
      cbn [resolve]; rewrite ?lookup_set_entry, ?Hdir.
    + now rewrite lookup_set_entry_other.
    + cbn [set_entry lookup_entry].
      destruct (String.eqb_spec dataset_file name); [congruence|reflexivity].
Qed.

(** X14. A run of [main] changes one file.  Every path that does not
    start with [datasets] leads where it led before (the reports are not
    touched), and so does every path into [datasets] other than
    [dataset.csv]: the files next to the output stay. *)
Theorem main_changes_one_file (fs fs1 : node) :
  main fs = Some fs1 ->
  (forall name p,
      name <> dataset_dir ->
      resolve fs1 (name :: p) = resolve fs (name :: p)) /\
  (forall name p,
      name <> dataset_file ->
      resolve fs1 (dataset_dir :: name :: p)
      = resolve fs (dataset_dir :: name :: p)).
Proof.
  unfold main.
  destruct (read_data_from_files fs root_folder) as [recs|]; [|discriminate].
  apply create_csv_dataset_keeps.
Qed.

(** X15. Below a working directory [create_csv_dataset] raises in exactly
    three situations: [datasets] exists and is a file; [datasets/dataset.csv]
    exists and is a directory; or a name or a text of the records cannot be
    encoded as UTF-8, as the name taken from a file name that is not UTF-8.
    The file system here has no permissions and no full device. *)
Theorem when_writing_fails (entries : list (string * node))
    (key_value_list : list (string * string)) :
  create_csv_dataset (Dir entries) key_value_list = None <->
  (exists data, lookup_entry entries dataset_dir = Some (File data)) \/
  (exists files sub,
      lookup_entry entries dataset_dir = Some (Dir files) /\
      lookup_entry files dataset_file = Some (Dir sub)) \/
  encodable key_value_list = false.
Proof.
  rewrite <- valid_csv_text.
  unfold create_csv_dataset, makedirs, write_text.
  destruct (lookup_entry entries dataset_dir) as [[data|files]|] eqn:Hdir.
  - split; [|reflexivity]. intros _. left. now exists data.
  - rewrite Hdir.
    destruct (lookup_entry files dataset_file) as [[data|sub]|] eqn:Hfile.
    + destruct (Utf8.valid (csv_text key_value_list));
        [|split; [now right; right | reflexivity]].
      split; [discriminate|].
      intros [(d & H) | [(files' & sub & H & Hsub) | H]]; try discriminate.
      injection H as <-. congruence.
    + split; [|reflexivity]. intros _. right. left. now exists files, sub.
    + destruct (Utf8.valid (csv_text key_value_list));
        [|split; [now right; right | reflexivity]].
      split; [discriminate|].
      intros [(d & H) | [(files' & sub & H & Hsub) | H]]; try discriminate.
      injection H as <-. congruence.
  - rewrite lookup_set_entry. cbn [lookup_entry].
    destruct (Utf8.valid (csv_text key_value_list));
      [|split; [now right; right | reflexivity]].
    split; [discriminate|].
    intros [(d & H) | [(files' & sub & H & _) | H]]; discriminate.
Qed.

(** X16. The dataset is a function of the tree under the root folder
    alone: two working directories with the same tree there are read to
    the same records and, when both runs succeed, end with the same
    dataset, whatever else they hold and whatever output was there. *)
Theorem output_depends_on_the_tree_only (fs fs' : node) :
  resolve fs [root_folder] = resolve fs' [root_folder] ->
  read_data_from_files fs root_folder = read_data_from_files fs' root_folder /\
  forall fs1 fs1',
    main fs = Some fs1 -> main fs' = Some fs1' ->
    resolve fs1 dataset_path = resolve fs1' dataset_path.
Proof.
  intros Hsame.
  assert (Hread : read_data_from_files fs root_folder
                  = read_data_from_files fs' root_folder).
  { apply read_data_agree. intros p.
    change (root_folder :: p) with ([root_folder] ++ p).
    now rewrite !resolve_app, Hsame. }
  split; [exact Hread|].
  intros fs1 fs1'. unfold main. rewrite Hread.
  destruct (read_data_from_files fs' root_folder) as [recs|];
    [|discriminate].
  intros H H'.
  rewrite (create_csv_dataset_content fs fs1 recs H).
  now rewrite (create_csv_dataset_content fs' fs1' recs H').
Qed.

Lemma count_append (c : ascii) (a b : string) :
  count c (a +:+ b) = (count c a + count c b)%nat.
Proof.
  induction a as [|x a IH]; [reflexivity|].
  cbn [String.append count]. rewrite IH. lia.
Qed.

Lemma count_none (c : ascii) (s : string) :
  Csv.is_newline c = true ->
  Csv.any Csv.is_newline s = false -> count c s = O.
Proof.
  intros Hc. induction s as [|x s IH]; [reflexivity|].
  cbn [Csv.any count]. rewrite orb_false_iff. intros [Hx Hs].
  rewrite (IH Hs). destruct (Ascii.eqb_spec x c) as [-> | _]; [|reflexivity].
  congruence.
Qed.

(** Quoting adds quotes and nothing else. *)
Lemma count_join_append (c : ascii) (f : string) :
  Ascii.eqb Csv.quotechar c = false ->
  count c (Csv.join_append f) = count c f.
Proof.
  intros Hc. unfold Csv.join_append.
  destruct (Csv.any Csv.needs_quotes f); [|reflexivity].
  cbn [count]. rewrite Hc, count_append. cbn [count]. rewrite Hc.
  assert (H : count c (Csv.join_append_data f) = count c f).
  { induction f as [|x f IH]; [reflexivity|].
    cbn [Csv.join_append_data].
    destruct (Ascii.eqb_spec x Csv.quotechar) as [-> | _].
    - cbn [count]. rewrite Hc, IH. reflexivity.
    - cbn [count]. now rewrite IH. }
  rewrite H. lia.
Qed.

Lemma count_rows (c : ascii) (key_value_list : list (string * string)) :
  c = Csv.CR \/ c = Csv.LF ->
  Forall (fun kv => Csv.any Csv.is_newline (fst kv) = false /\
                    Csv.any Csv.is_newline (snd kv) = false)
         key_value_list ->
  count c (Csv.writerows (map as_row key_value_list))
  = length key_value_list.
Proof.
  intros Hc Hall.
  assert (Hnl : Csv.is_newline c = true) by (destruct Hc; now subst).
  assert (Hq : Ascii.eqb Csv.quotechar c = false) by (destruct Hc; now subst).
  assert (Hd : Ascii.eqb Csv.delimiter c = false) by (destruct Hc; now subst).
  assert (Hterm : count c Csv.lineterminator = 1%nat)
    by (destruct Hc; now subst).
  induction Hall as [|[name text] rest [Hname Htext] _ IH]; [reflexivity|].
  cbn [map Csv.writerows as_row fst snd length] in *.
  rewrite count_append, IH.
  assert (Hrow : Csv.writerow [name; text]
                 = (Csv.join_append name
                    +:+ String Csv.delimiter (Csv.join_append text))
                   +:+ Csv.lineterminator)
    by (destruct name; reflexivity).
  change (as_row (name, text)) with [name; text].
  rewrite Hrow, !count_append. cbn [count]. rewrite Hd.
  rewrite !count_join_append by assumption.
  rewrite (count_none c name Hnl Hname), (count_none c text Hnl Htext), Hterm.
  lia.
Qed.

(** X17. When no file name of the tree has a line break in it, the
    dataset that is written has one line for each row: N+1 line
    terminators for N records, each a CR followed by an LF, none of them
    inside a field. *)
Theorem one_line_per_row (fs : node) (root : string)
    (key_value_list : list (string * string)) :
  read_data_from_files fs root = Some key_value_list ->
  Forall (fun kv => Csv.any Csv.is_newline (fst kv) = false) key_value_list ->
  count Csv.LF (csv_text key_value_list) = S (length key_value_list) /\
  count Csv.CR (csv_text key_value_list) = S (length key_value_list).
Proof.
  intros Hread Hnames.
  assert (Hall : Forall (fun kv => Csv.any Csv.is_newline (fst kv) = false /\
                                   Csv.any Csv.is_newline (snd kv) = false)
                        key_value_list).
  { unfold read_data_from_files in Hread.
    apply read_dirs_no_newline in Hread; [|constructor].
    clear -Hnames Hread.
    induction key_value_list as [|kv rest IH]; constructor.
    - split; [exact (List.Forall_inv Hnames) | exact (List.Forall_inv Hread)].
    - apply IH; [exact (List.Forall_inv_tail Hread)
                | exact (List.Forall_inv_tail Hnames)]. }
  unfold csv_text. rewrite !count_append.
  rewrite (count_rows Csv.LF key_value_list (or_intror eq_refl) Hall).
  rewrite (count_rows Csv.CR key_value_list (or_introl eq_refl) Hall).
  split; reflexivity.
Qed.

(** The root that [splitext] leaves is not empty, unless the name is. *)
Lemma splitext_root_not_empty (p : string) :
  p <> "" -> fst (splitext p) <> "".
Proof.
  intros Hp. unfold splitext. pose proof (rfind_dot_spec p) as Hdot.
  destruct (rfind_dot p) as [i|]; [|exact Hp].
  destruct (all_dots i p) eqn:Hall; [exact Hp|].
  destruct Hdot as (a & e & -> & <- & _). cbn [fst].
  rewrite substring_prefix.
  destruct a; [discriminate Hall | discriminate].
Qed.

Lemma rfind_dot_none (p : string) :
  Csv.any is_dot p = false -> rfind_dot p = None.
Proof.
  induction p as [|c p IH]; [reflexivity|].
  cbn [Csv.any rfind_dot]. rewrite orb_false_iff. intros [Hc Hp].
  now rewrite (IH Hp), Hc.
Qed.

(** X18. The name of a record and the name of its file: the record's
    name and an extension (empty, or one dot followed by characters that
    are not dots) make up the file's base name again.  A file name
    without a dot is kept whole, and no file with a name gets an empty
    record name. *)
Theorem record_name_and_file_name (fs : node) (root : string) (tree : node)
    (recs : list (string * string)) :
  resolve fs [root] = Some tree ->
  wf tree = true ->
  read_data_from_files fs root = Some recs ->
  Forall2 (fun f r =>
             (exists ext,
                 fst r +:+ ext = basename (fst f) /\
                 (ext = "" \/
                  exists e, ext = String "." e /\ Csv.any is_dot e = false)) /\
             (Csv.any is_dot (basename (fst f)) = false ->
              fst r = basename (fst f)) /\
             (basename (fst f) <> "" -> fst r <> ""))
          (files_of [root] tree) recs.
Proof.
  intros Hroot Hwf Hread.
  rewrite (read_data_records fs root tree Hroot Hwf) in Hread.
  apply records_of_each in Hread.
  induction Hread as [|f r files recs (data & _ & ->) _ IH]; constructor;
    [|exact IH].
  cbn [fst]. split; [|split].
  - exists (snd (splitext (basename (fst f)))).
    exact (splitext_spec (basename (fst f))).
  - intros Hnodot. unfold splitext. now rewrite (rfind_dot_none _ Hnodot).
  - apply splitext_root_not_empty.
Qed.

End BuilderEdges.

(** ** The further properties at the sample data *)

Section FurtherAtTheSamples.
Import Py WeatherApp Props Further.

Lemma body_that_is_no_object_witness :
  dispatch Sample.env Forecast {| get_json := PyList [PyInt 1] |} initial
  = (internal_server_error, initial).
Proof. apply body_that_is_no_object. discriminate. Defined.

Lemma weather_that_is_no_object_witness :
  dispatch Sample.env Current
           {| get_json := PyDict [("token", PyStr "s3cret");
                                  ("weather", PyStr "Paris")] |} initial
  = (internal_server_error, {| ticks := 1; calls := [] |}).
Proof.
  apply (weather_that_is_no_object Sample.env Current _ initial (PyStr "Paris")).
  - split; [discriminate | reflexivity].
  - reflexivity.
  - reflexivity.
  - discriminate.
Defined.

Lemma offline_good_body_well_formed :
  well_formed offline_env Sample.good_body Sample.paris.
Proof.
  split; [split|split]; [discriminate | reflexivity | reflexivity | discriminate].
Defined.

Lemma provider_unreachable_witness :
  dispatch offline_env Current {| get_json := PyDict Sample.good_body |} initial
  = (internal_server_error,
     {| ticks := 1;
        calls := [{| call_method := "GET";
                     call_url := "http://api.weatherapi.com/v1/current.json";
                     call_params := [("key", PyStr "k3y"); ("q", PyStr "Paris");
                                     ("lang", PyStr "fr")] |}] |}).
Proof.
  exact (provider_unreachable offline_env Current Sample.good_body Sample.paris
           initial _ offline_good_body_well_formed eq_refl eq_refl).
Defined.

Lemma provider_call_needs_the_token_witness :
  exists body token wp,
    get_json {| get_json := PyDict Sample.good_body |} = PyDict body /\
    dict_lookup body "token" = Some (PyStr token) /\
    API_TOKEN Sample.env = Some token /\
    dict_lookup body "weather" = Some (PyDict wp) /\
    wp <> [].
Proof.
  apply (provider_call_needs_the_token Sample.env Current
           {| get_json := PyDict Sample.good_body |} initial).
  discriminate.
Defined.

Lemma unset_token_locks_the_service_witness :
  snd (full_dispatch_request Sample.unset_env Current form_post initial)
    = initial /\
  (status (fst (full_dispatch_request Sample.unset_env Current form_post
                  initial)) = 400 \/
   status (fst (full_dispatch_request Sample.unset_env Current form_post
                  initial)) = 403 \/
   status (fst (full_dispatch_request Sample.unset_env Current form_post
                  initial)) = 415 \/
   status (fst (full_dispatch_request Sample.unset_env Current form_post
                  initial)) = 500).
Proof.
  exact (unset_token_locks_the_service Sample.unset_env Current form_post
           initial eq_refl).
Defined.

Lemma unread_keys_are_ignored_witness :
  dispatch Sample.env History {| get_json := PyDict Sample.good_body |} initial
  = dispatch Sample.env History {| get_json := PyDict noisy_body |} initial.
Proof.
  apply (unread_keys_are_ignored Sample.env History Sample.good_body
           Sample.paris noisy_body (("aqi", PyStr "yes") :: Sample.paris)).
  - exact good_body_well_formed.
  - split; [split|split];
      [discriminate | reflexivity | reflexivity | discriminate].
  - reflexivity.
Defined.

Lemma the_call_of_an_endpoint_witness :
  exists c,
    calls (snd (dispatch Sample.env Forecast
                  {| get_json := PyDict Sample.good_body |} initial)) = [c] /\
    call_url c = "http://api.weatherapi.com/v1/forecast.json" /\
    dict_keys (call_params c) = ["key"; "q"; "days"; "lang"] /\
    dict_lookup (call_params c) "q" = Some (PyStr "Paris").
Proof.
  destruct (the_call_of_an_endpoint Sample.env Forecast Sample.good_body
              Sample.paris initial good_body_well_formed)
    as (c & Hcalls & _ & Hurl & Hkeys & Hq).
  exists c. split; [exact Hcalls|]. split; [exact Hurl|].
  split; [exact Hkeys | exact Hq].
Defined.

End FurtherAtTheSamples.

Section FurtherAtTheSampleTrees.
Import Dataset Corpus Further.

Lemma nothing_to_read_witness :
  read_data_from_files (Dir [("row_data", Dir [("2022", Dir [])])]) root_folder
  = Some [].
Proof.
  apply (nothing_to_read (Dir [("row_data", Dir [("2022", Dir [])])])).
  intros x [= <-]. split; reflexivity.
Defined.

Lemma unreadable_file_aborts_witness :
  read_data_from_files damaged_disk root_folder = None /\
  main damaged_disk = None.
Proof.
  apply (unreadable_file_aborts damaged_disk damaged_reports
           ["row_data"; "sub"; "b.bin"]).
  - reflexivity.
  - reflexivity.
  - simpl. right. left. reflexivity.
Defined.

Lemma main_changes_one_file_witness :
  resolve busy_disk_after ["notes.md"] = resolve busy_disk ["notes.md"] /\
  resolve busy_disk_after ["datasets"; "old.csv"]
  = resolve busy_disk ["datasets"; "old.csv"].
Proof.
  destruct (main_changes_one_file busy_disk busy_disk_after eq_refl)
    as [Houtside Hbeside].
  split.
  - apply Houtside. discriminate.
  - apply Hbeside. discriminate.
Defined.

Lemma output_depends_on_the_tree_only_witness :
  read_data_from_files Sample.disk root_folder
  = read_data_from_files bare_disk root_folder.
Proof.
  exact (proj1 (output_depends_on_the_tree_only Sample.disk bare_disk eq_refl)).
Defined.

Lemma one_line_per_row_witness :
  count Csv.LF (csv_text Sample.records) = 4%nat /\
  count Csv.CR (csv_text Sample.records) = 4%nat.
Proof.
  apply (one_line_per_row Sample.disk "row_data" Sample.records).
  - reflexivity.
  - repeat constructor.
Defined.

Lemma record_name_and_file_name_witness :
  Forall2 (fun f r =>
             (exists ext,
                 fst r +:+ ext = basename (fst f) /\
                 (ext = "" \/
                  exists e, ext = String "." e /\ Csv.any is_dot e = false)) /\
             (Csv.any is_dot (basename (fst f)) = false ->
              fst r = basename (fst f)) /\
             (basename (fst f) <> "" -> fst r <> ""))
          (files_of ["row_data"] Sample.reports) Sample.records.
Proof.
  apply (record_name_and_file_name Sample.disk "row_data" Sample.reports).
  - reflexivity.
  - reflexivity.
  - reflexivity.
Defined.

End FurtherAtTheSampleTrees.
